(** * GitVideo: the job table, the repository scanner and the Sora progress band

    A shallow embedding of the Python backend:
    - [backend/app/models/schemas.py]: the request, job and repository records;
    - [backend/app/services/repo_service.py]: URL parsing, key-file detection
      and image-URL guessing over the rendered file tree;
    - [backend/app/services/video_service.py]: duration mapping and the
      create / poll / download sequence with its progress callback;
    - [backend/app/main.py]: the three endpoints, the background pipeline and
      the callback that maps provider progress into the job's 30-95 band.

    Python [str] values are Rocq strings holding the UTF-8 bytes of the text.
    The process-wide dict [video_jobs] is a [gmap string VideoStatusResponse]
    threaded through every statement that reads or writes it. *)

From Stdlib Require Import ZArith Lia List Bool Ascii String Sorted.
From Stdlib Require Import Floats.SpecFloat.
From stdpp Require Import base option list gmap strings pretty.

Import ListNotations.
Local Open Scope string_scope.
Local Open Scope list_scope.
Local Open Scope Z_scope.

(** ** Python string operations on UTF-8 text *)

Module PyStr.

(** The line feed written ["\n"] in the source. *)
Definition LF : ascii := "010"%char.

(** [sub in s]. *)
Fixpoint contains (sub s : string) : bool :=
  String.prefix sub s ||
  match s with
  | EmptyString => false
  | String _ r => contains sub r
  end.

(** [s[n:]]. *)
Fixpoint drop_chars (n : nat) (s : string) : string :=
  match n, s with
  | O, _ => s
  | S k, String _ r => drop_chars k r
  | S _, EmptyString => EmptyString
  end.

(** [s[:n]], counting code points: a byte 10xxxxxx continues the code
    point before it. *)
Fixpoint take_chars (n : nat) (s : string) : string :=
  match s with
  | EmptyString => EmptyString
  | String c r =>
      if ((128 <=? nat_of_ascii c) && (nat_of_ascii c <? 192))%nat
      then String c (take_chars n r)
      else match n with
           | O => EmptyString
           | S k => String c (take_chars k r)
           end
  end.

(** [s.endswith(suffix)]. *)
Definition endswith (s suffix : string) : bool :=
  (String.length suffix <=? String.length s)%nat &&
  String.eqb (drop_chars (String.length s - String.length suffix) s) suffix.

(** [s.replace(old, new)]: every non-overlapping occurrence, leftmost
    first.  [skip] counts the characters of a matched occurrence that are
    still to be passed over.  Every call site passes a non-empty [old]. *)
Fixpoint replace_from (skip : nat) (old new s : string) : string :=
  match s with
  | EmptyString => EmptyString
  | String c r =>
      match skip with
      | S k => replace_from k old new r
      | O =>
          if String.prefix old s
          then new +:+ replace_from (String.length old - 1) old new r
          else String c (replace_from O old new r)
      end
  end.

Definition replace (s old new : string) : string := replace_from O old new s.

(** [s.split(sep)] for a one-character separator: never empty, [""] gives
    [[""]]. *)
Fixpoint split (sep : ascii) (s : string) : list string :=
  match s with
  | EmptyString => [EmptyString]
  | String c r =>
      if Ascii.eqb c sep then EmptyString :: split sep r
      else match split sep r with
           | h :: t => String c h :: t
           | [] => [String c EmptyString]
           end
  end.

(** [sep.join(parts)]. *)
Definition join (sep : string) (parts : list string) : string :=
  String.concat sep parts.

(** [s.lower()].  [lower_char] lowers an ASCII letter.  Two code points
    outside ASCII have a lower-case form that holds an ASCII character:
    U+212A KELVIN SIGN (bytes E2 84 AA) becomes "k", and U+0130 LATIN CAPITAL
    LETTER I WITH DOT ABOVE (bytes C4 B0) becomes "i" followed by U+0307
    (bytes CC 87).  Every other cased letter outside ASCII is replaced by
    Python with letters outside ASCII; its bytes are kept here.  The lowered
    text is only ever searched for ASCII text (patterns, extensions,
    directory names), and a character outside ASCII takes no part in such a
    match before or after that replacement. *)
Definition lower_char (c : ascii) : ascii :=
  let n := nat_of_ascii c in
  if ((65 <=? n) && (n <=? 90))%nat then ascii_of_nat (n + 32) else c.

Fixpoint lower (s : string) : string :=
  match s with
  | EmptyString => EmptyString
  | String c r =>
      let plain := String (lower_char c) (lower r) in
      match r with
      | EmptyString => plain
      | String c2 r2 =>
          if ((nat_of_ascii c =? 196) && (nat_of_ascii c2 =? 176))%nat
          then String "i" (String (ascii_of_nat 204) (String (ascii_of_nat 135) (lower r2)))
          else
            match r2 with
            | EmptyString => plain
            | String c3 r3 =>
                if ((nat_of_ascii c =? 226) && (nat_of_ascii c2 =? 132)
                    && (nat_of_ascii c3 =? 170))%nat
                then String "k" (lower r3)
                else plain
            end
      end
  end.

Fixpoint rev_onto (s acc : string) : string :=
  match s with
  | EmptyString => acc
  | String c r => rev_onto r (String c acc)
  end.

Definition reverse (s : string) : string := rev_onto s EmptyString.

(** Removal of leading characters drawn from a set; each character is
    given by its UTF-8 encoding, so a set may hold multi-byte characters.
    One round removes one character; [String.length s] rounds suffice. *)
Fixpoint lstrip_rounds (n : nat) (chars : list string) (s : string) : string :=
  match n with
  | O => s
  | S k =>
      match List.find (fun c => String.prefix c s) chars with
      | Some c => lstrip_rounds k chars (drop_chars (String.length c) s)
      | None => s
      end
  end.

(** [s.lstrip(chars)]. *)
Definition lstrip (s : string) (chars : list string) : string :=
  lstrip_rounds (String.length s) chars s.

(** [s.rstrip(chars)]. *)
Definition rstrip (s : string) (chars : list string) : string :=
  reverse (lstrip (reverse s) (List.map reverse chars)).

(** [s.strip(chars)]. *)
Definition strip (s : string) (chars : list string) : string :=
  rstrip (lstrip s chars) chars.

Definition chr (n : nat) : string := String (ascii_of_nat n) EmptyString.
Definition utf8_2 (a b : nat) : string := String (ascii_of_nat a) (chr b).
Definition utf8_3 (a b c : nat) : string := String (ascii_of_nat a) (utf8_2 b c).

(** The characters for which [str.isspace] holds, UTF-8 encoded: the ASCII
    ones (TAB..CR, FS..US, space) and NEL, NBSP, U+1680, U+2000..U+200A,
    U+2028, U+2029, U+202F, U+205F, U+3000. *)
Definition whitespace : list string :=
  List.map chr [9; 10; 11; 12; 13; 28; 29; 30; 31; 32]%nat
  ++ [utf8_2 194 133; utf8_2 194 160; utf8_3 225 154 128]
  ++ List.map (utf8_3 226 128) [128; 129; 130; 131; 132; 133; 134; 135; 136; 137; 138]%nat
  ++ [utf8_3 226 128 168; utf8_3 226 128 169; utf8_3 226 128 175;
      utf8_3 226 129 159; utf8_3 227 128 128].

(** [s.strip()] with no argument. *)
Definition strip_ws (s : string) : string := strip s whitespace.

(** Truthiness of a [str]: non-empty. *)
Definition truthy (s : string) : bool := negb (String.eqb s EmptyString).

(** [str(n)] and [{n}] inside an f-string, for an [int]. *)
Definition of_int (n : Z) : string := pretty n.

End PyStr.

(** ** Python path operations *)

Module PyOs.

(** [os.path.join(a, b)] of [posixpath]: a second component that begins
    with a slash replaces the first. *)
Definition path_join (a b : string) : string :=
  if String.prefix "/" b then b
  else if negb (PyStr.truthy a) || PyStr.endswith a "/" then a +:+ b
  else a +:+ "/" +:+ b.

End PyOs.

(** ** Python exceptions raised or caught by the modelled code *)

Inductive Exception :=
  | ValueError (msg : string)
  | KeyError (key : string)
  | OverflowError (msg : string)
  | Exception_ (msg : string)
  | HTTPStatusError (detail : string)
  | ExternalError (detail : string).

(** [str(e)].  [HTTPStatusError] is httpx's, raised by [raise_for_status];
    [ExternalError] stands for whatever else a library call raised (httpx,
    json, openai); [detail] is its [str].  The [str] of a [KeyError]
    is the [repr] of the key, written here for keys without quotes. *)
Definition str (e : Exception) : string :=
  match e with
  | ValueError msg => msg
  | KeyError key => "'" +:+ key +:+ "'"
  | OverflowError msg => msg
  | Exception_ msg => msg
  | HTTPStatusError detail => detail
  | ExternalError detail => detail
  end.

(** ** binary64 arithmetic behind [int(sora_progress * 0.65)] *)

Module PyFloat.

Definition prec : Z := 53.
Definition emax : Z := 1024.

(** The literal [0.65]: the binary64 number nearest to 65/100. *)
Definition lit_0_65 : spec_float := S754_finite false 5854679515581645 (-53).

(** [float(n)] for an [int], as the multiplication [n * 0.65] performs it:
    round to nearest even, [OverflowError] beyond the binary64 range. *)
Definition of_int (n : Z) : Exception + spec_float :=
  match binary_normalize prec emax n 0 false with
  | S754_infinity _ => inl (OverflowError "int too large to convert to float")
  | x => inr x
  end.

Definition mul (x y : spec_float) : spec_float := SFmul prec emax x y.

(** [int(x)] for a [float]: truncation toward zero. *)
Definition to_int (x : spec_float) : Exception + Z :=
  match x with
  | S754_zero _ => inr 0
  | S754_finite s m e =>
      let a := if 0 <=? e then Z.shiftl (Zpos m) e else Z.shiftr (Zpos m) (- e) in
      inr (if s then - a else a)
  | S754_infinity _ => inl (OverflowError "cannot convert float infinity to integer")
  | S754_nan => inl (ValueError "cannot convert float NaN to integer")
  end.

End PyFloat.

(** ** video_service.py: duration and size mapping *)

Definition get_sora_duration (requested_duration : Z) : string :=
  if requested_duration <=? 4 then "4"
  else if requested_duration <=? 8 then "8"
  else "12".

Definition get_sora_size (landscape : bool) : string :=
  if landscape then "1280x720" else "720x1280".

(** ** main.py: the displayed progress computed by [update_sora_progress] *)

(** [mapped_progress = 30 + int(sora_progress * 0.65)]. *)
Definition mapped_progress (sora_progress : Z) : Exception + Z :=
  match PyFloat.of_int sora_progress with
  | inl e => inl e
  | inr x =>
      match PyFloat.to_int (PyFloat.mul x PyFloat.lit_0_65) with
      | inl e => inl e
      | inr k => inr (30 + k)
      end
  end.

(** [min(mapped_progress, 95)], the value stored in the job. *)
Definition displayed_progress (sora_progress : Z) : Exception + Z :=
  match mapped_progress sora_progress with
  | inl e => inl e
  | inr m => inr (Z.min m 95)
  end.

(** ** models/schemas.py *)

Inductive VideoStyle := CINEMATIC | TECH | MINIMAL | DYNAMIC | DOCUMENTARY.

Inductive VideoStatus := PENDING | PROCESSING | COMPLETED | FAILED.

Global Instance VideoStatus_eq_dec : EqDecision VideoStatus.
Proof. solve_decision. Defined.

(** A URL by the components [urllib.parse.urlparse] reads off it.  [str] of
    the request's URL followed by [urlparse] hands [_parse_github_url] these
    components. *)
Record Url := { scheme : string; netloc : string; path : string }.

Record VideoGenerationRequest := {
  repo_url : Url;
  openai_api_key : string;
  video_style : VideoStyle;
  duration : Z
}.

(** [len(s)]: the number of code points, that is of bytes that are not
    UTF-8 continuation bytes. *)
Fixpoint len (s : string) : Z :=
  match s with
  | EmptyString => 0
  | String c r =>
      (if (128 <=? nat_of_ascii c)%nat && (nat_of_ascii c <? 192)%nat then 0 else 1) + len r
  end.

(** The field constraints of [VideoGenerationRequest]: [HttpUrl] (scheme
    http or https, a host), [min_length=20], [ge=4], [le=12].  The style is
    an enumeration member by typing. *)
Definition valid_request (request : VideoGenerationRequest) : bool :=
  (String.eqb (scheme (repo_url request)) "http" || String.eqb (scheme (repo_url request)) "https")
  && PyStr.truthy (netloc (repo_url request))
  && (20 <=? len (openai_api_key request))
  && (4 <=? duration request) && (duration request <=? 12).

Record VideoGenerationResponse := {
  vgr_job_id : string;
  vgr_message : string;
  status_url : string
}.

Record VideoStatusResponse := {
  job_id : string;
  status : VideoStatus;
  message : string;
  progress : Z;
  video_url : option string;
  video_path : option string;
  thumbnail_url : option string
}.

(** [summary], the free text of [_build_summary], is read by no later stage
    and is not carried. *)
Record RepoData := {
  name : string;
  description : option string;
  language : option string;
  languages : list string;
  topics : list string;
  stars : Z;
  forks : Z;
  file_tree : string;
  key_files : list string;
  readme_content : option string;
  image_urls : list string
}.

(** ** services/repo_service.py *)

Definition FOLDER : string := "📁".
Definition PAGE : string := "📄".

(** [_parse_github_url]: owner and repository from the URL path. *)
Definition _parse_github_url (url : Url) : Exception + (string * string) :=
  let path_parts := PyStr.split "/" (PyStr.strip (path url) ["/"]) in
  if (length path_parts <? 2)%nat then inl (ValueError "Invalid GitHub URL format")
  else
    let owner := nth 0 path_parts "" in
    let repo := PyStr.replace (nth 1 path_parts "") ".git" "" in
    inr (owner, repo).

Definition key_patterns : list string :=
  ["README"; "LICENSE"; "CONTRIBUTING";
   "package.json"; "requirements.txt"; "Cargo.toml";
   "setup.py"; "pyproject.toml"; "go.mod";
   "Dockerfile"; "docker-compose"; ".github/workflows"].

(** The inner loop of [_identify_key_files] over the patterns: on the first
    pattern found in the line the file name is appended and the loop left. *)
Fixpoint scan_patterns (patterns : list string) (line : string)
    (key_files : list string) : list string :=
  match patterns with
  | [] => key_files
  | pattern :: rest =>
      if PyStr.contains (PyStr.lower pattern) (PyStr.lower line) then
        let filename :=
          PyStr.replace (PyStr.replace line (FOLDER +:+ " ") "") (PAGE +:+ " ") "" in
        key_files ++ [filename]
      else scan_patterns rest line key_files
  end.

(** [_identify_key_files]. *)
Definition _identify_key_files (file_tree : string) : list string :=
  let key_files :=
    fold_left (fun key_files line => scan_patterns key_patterns line key_files)
              (PyStr.split PyStr.LF file_tree) [] in
  take 10 key_files.

Definition image_extensions : list string :=
  [".png"; ".jpg"; ".jpeg"; ".gif"; ".webp"; ".svg"].

Definition asset_subdirs : list string :=
  ["assets"; "images"; "img"; "docs"; "static"; "public"].

(** The characters of [line.lstrip("│ ├└─ ")]. *)
Definition tree_chars : list string := ["│"; " "; "├"; "└"; "─"].

Definition raw_base (owner repo : string) : string :=
  "https://raw.githubusercontent.com/" +:+ owner +:+ "/" +:+ repo +:+ "/main/".

(** [x in l] for a list of strings. *)
Definition in_list (x : string) (l : list string) : bool :=
  existsb (String.eqb x) l.

(** The body of the loop of [_extract_image_urls] for one line.  The
    [indent_level] the source computes is never read and is left out. *)
Definition scan_image_line (file_tree owner repo : string)
    (image_urls : list string) (line : string) : list string :=
  if negb (PyStr.truthy (PyStr.strip_ws line)) then image_urls
  else
    let stripped := PyStr.lstrip line tree_chars in
    let filename :=
      PyStr.strip_ws
        (PyStr.replace (PyStr.replace stripped (FOLDER +:+ " ") "") (PAGE +:+ " ") "") in
    if negb (PyStr.truthy filename) then image_urls
    else
      let lower_filename := PyStr.lower filename in
      let is_image := existsb (fun ext => PyStr.endswith lower_filename ext) image_extensions in
      if is_image then
        let raw_url := raw_base owner repo +:+ filename in
        let image_urls := image_urls ++ [raw_url] in
        fold_left
          (fun image_urls subdir =>
             if PyStr.contains subdir (PyStr.lower file_tree) then
               let alt_url := raw_base owner repo +:+ subdir +:+ "/" +:+ filename in
               if negb (in_list alt_url image_urls) then image_urls ++ [alt_url]
               else image_urls
             else image_urls)
          asset_subdirs image_urls
      else image_urls.

(** [_extract_image_urls]. *)
Definition _extract_image_urls (file_tree owner repo : string) : list string :=
  let lines := PyStr.split PyStr.LF file_tree in
  let image_urls := fold_left (scan_image_line file_tree owner repo) lines [] in
  take 5 image_urls.

(** ** The job table and the statements that mutate it *)

Abbreviation Jobs := (gmap string VideoStatusResponse).

(** How a coroutine stands after the provider replies it was given:
    returned, raised, or suspended in the poll loop waiting for the next
    reply. *)
Inductive Outcome (A : Type) :=
  | Returned (a : A)
  | Raised (e : Exception)
  | Suspended.
Arguments Returned {A} a.
Arguments Raised {A} e.
Arguments Suspended {A}.

(** A run from a given table: the table after each attribute assignment, in
    order (what a concurrent status reader can observe), the table at the
    end, and the outcome. *)
Record Run (A : Type) := MkRun {
  writes : list Jobs;
  table : Jobs;
  outcome : Outcome A
}.
Arguments MkRun {A} writes table outcome.
Arguments writes {A} r.
Arguments table {A} r.
Arguments outcome {A} r.

Definition M (A : Type) : Type := Jobs → Run A.

Global Instance M_ret : MRet M := λ A a video_jobs, MkRun [] video_jobs (Returned a).

Global Instance M_bind : MBind M := λ A B f m video_jobs,
  let r := m video_jobs in
  match outcome r with
  | Returned a =>
      let r' := f a (table r) in
      MkRun (writes r ++ writes r') (table r') (outcome r')
  | Raised e => MkRun (writes r) (table r) (Raised e)
  | Suspended => MkRun (writes r) (table r) Suspended
  end.

Definition raise {A} (e : Exception) : M A := λ video_jobs, MkRun [] video_jobs (Raised e).

Definition suspend {A} : M A := λ video_jobs, MkRun [] video_jobs Suspended.

(** A call that raises or returns without touching the table. *)
Definition lift {A} (r : Exception + A) : M A :=
  match r with
  | inl e => raise e
  | inr a => mret a
  end.

(** [try: body  except Exception as e: handler(e)]. *)
Definition try_except {A} (body : M A) (handler : Exception → M A) : M A :=
  λ video_jobs,
    let r := body video_jobs in
    match outcome r with
    | Raised e =>
        let r' := handler e (table r) in
        MkRun (writes r ++ writes r') (table r') (outcome r')
    | _ => r
    end.

(** [video_jobs[job_id].attr = value]: [KeyError] when the key is absent. *)
Definition setattr (job_id : string)
    (assign : VideoStatusResponse → VideoStatusResponse) : M unit :=
  λ video_jobs,
    match video_jobs !! job_id with
    | None => MkRun [] video_jobs (Raised (KeyError job_id))
    | Some job =>
        let video_jobs' := <[job_id := assign job]> video_jobs in
        MkRun [video_jobs'] video_jobs' (Returned tt)
    end.

Definition set_status (v : VideoStatus) (j : VideoStatusResponse) : VideoStatusResponse :=
  {| job_id := job_id j; status := v; message := message j; progress := progress j;
     video_url := video_url j; video_path := video_path j; thumbnail_url := thumbnail_url j |}.

Definition set_message (v : string) (j : VideoStatusResponse) : VideoStatusResponse :=
  {| job_id := job_id j; status := status j; message := v; progress := progress j;
     video_url := video_url j; video_path := video_path j; thumbnail_url := thumbnail_url j |}.

Definition set_progress (v : Z) (j : VideoStatusResponse) : VideoStatusResponse :=
  {| job_id := job_id j; status := status j; message := message j; progress := v;
     video_url := video_url j; video_path := video_path j; thumbnail_url := thumbnail_url j |}.

Definition set_video_path (v : string) (j : VideoStatusResponse) : VideoStatusResponse :=
  {| job_id := job_id j; status := status j; message := message j; progress := progress j;
     video_url := video_url j; video_path := Some v; thumbnail_url := thumbnail_url j |}.

Definition set_video_url (v : string) (j : VideoStatusResponse) : VideoStatusResponse :=
  {| job_id := job_id j; status := status j; message := message j; progress := progress j;
     video_url := Some v; video_path := video_path j; thumbnail_url := thumbnail_url j |}.

(** ** The replies of the outside world during one run *)

(** The JSON object of the video provider, by the keys the code reads. *)
Record VideoData := {
  vd_id : option string;
  vd_status : option string;
  vd_progress : option Z;
  vd_error : option string
}.

Record CreateResponse := {
  status_code : Z;
  text : string;
  json : Exception + VideoData
}.

Record FormData := {
  fd_model : string;
  fd_prompt : string;
  fd_size : string;
  fd_seconds : string
}.

(** The JSON object of the repository host, by the keys the code reads. *)
Record RepoInfo := {
  ri_name : option string;
  ri_description : option string;
  ri_language : option string;
  ri_stargazers_count : option Z;
  ri_forks_count : option Z
}.

Definition no_repo_info : RepoInfo :=
  {| ri_name := None; ri_description := None; ri_language := None;
     ri_stargazers_count := None; ri_forks_count := None |}.

Record TreeItem := { ti_path : string; ti_type : string }.

(** What each awaited call returns or raises.  [polls] holds the replies to
    the successive status requests; a run that needs more replies than the
    list holds is [Suspended]. *)
Record World := {
  repo_info_reply : Exception + RepoInfo;
  languages_reply : Exception + list string;
  readme_reply : Exception + string;
  tree_reply : Exception + list TreeItem;
  topics_reply : Exception + list string;
  completion_reply : Exception + string;
  create_reply : FormData → Exception + CreateResponse;
  polls : list (Exception + VideoData);
  download_reply : option Exception
}.

(** ** services/repo_service.py: ingestion *)

(** [_fetch_readme]: the raw text cut at 5000 characters, [None] on an HTTP
    error status. *)
Definition _fetch_readme (w : World) : Exception + option string :=
  match readme_reply w with
  | inl (HTTPStatusError _) => inr None
  | inl e => inl e
  | inr t => inr (Some (PyStr.take_chars 5000 t))
  end.

(** [_fetch_file_tree]: one line per entry, at most 100 entries. *)
Definition _fetch_file_tree (w : World) : Exception + string :=
  match tree_reply w with
  | inl (HTTPStatusError _) => inr ""
  | inl e => inl e
  | inr tree =>
      let tree_lines :=
        List.map (fun item =>
                    (if String.eqb (ti_type item) "tree" then FOLDER else PAGE)
                    +:+ " " +:+ ti_path item)
                 (take 100 tree) in
      inr (PyStr.join (String PyStr.LF "") tree_lines)
  end.

(** [_fetch_topics]. *)
Definition _fetch_topics (w : World) : Exception + list string :=
  match topics_reply w with
  | inl (HTTPStatusError _) => inr []
  | r => r
  end.

(** [results[i] if not isinstance(results[i], Exception) else default]. *)
Definition or_default {A} (r : Exception + A) (d : A) : A :=
  match r with
  | inl _ => d
  | inr a => a
  end.

(** [ingest_repository]: only the URL parse can raise; the five fetches are
    gathered with [return_exceptions=True]. *)
Definition ingest_repository (w : World) (repo_url : Url) : Exception + RepoData :=
  match _parse_github_url repo_url with
  | inl e => inl e
  | inr (owner, repo) =>
      let repo_info := or_default (repo_info_reply w) no_repo_info in
      let languages := or_default (languages_reply w) [] in
      let readme := or_default (_fetch_readme w) None in
      let file_tree := or_default (_fetch_file_tree w) "" in
      let topics := or_default (_fetch_topics w) [] in
      let key_files := _identify_key_files file_tree in
      let image_urls := _extract_image_urls file_tree owner repo in
      inr {| name := default repo (ri_name repo_info);
             description := ri_description repo_info;
             language := ri_language repo_info;
             languages := languages;
             topics := topics;
             stars := default 0 (ri_stargazers_count repo_info);
             forks := default 0 (ri_forks_count repo_info);
             file_tree := file_tree;
             key_files := key_files;
             readme_content := readme;
             image_urls := image_urls |}
  end.

(** ** services/video_service.py *)

(** [generate_script]: what the chat completion returns or raises. *)
Definition generate_script (w : World) (repo_data : RepoData) : Exception + string :=
  completion_reply w.

Definition style_modifiers (style : VideoStyle) : string :=
  match style with
  | CINEMATIC => "Slow camera movement, dramatic lighting, depth of field"
  | TECH => "Neon blue and purple colors, dark background, glowing elements"
  | MINIMAL => "Clean white background, subtle animations, simple shapes"
  | DYNAMIC => "Fast motion, vibrant colors, energetic particle effects"
  | DOCUMENTARY => "Steady camera, neutral lighting, smooth transitions"
  end.

(** [if progress_callback: progress_callback(p, m)]. *)
Definition call_back (progress_callback : option (Z → string → M unit))
    (p : Z) (m : string) : M unit :=
  match progress_callback with
  | Some f => f p m
  | None => mret tt
  end.

(** The [while video_status in ["queued", "in_progress"]] loop, one reply of
    [replies] per iteration. *)
Fixpoint poll_loop (progress_callback : option (Z → string → M unit))
    (replies : list (Exception + VideoData))
    (video_status : string) (video_data : VideoData) : M (string * VideoData) :=
  if in_list video_status ["queued"; "in_progress"] then
    match replies with
    | [] => suspend
    | reply :: replies =>
        video_data ← lift reply;
        let video_status := default "in_progress" (vd_status video_data) in
        let sora_progress := default 0 (vd_progress video_data) in
        let status_msg :=
          if String.eqb video_status "queued" then "Queued..."
          else "Generating video... " +:+ PyStr.of_int sora_progress +:+ "%" in
        call_back progress_callback sora_progress status_msg;;
        poll_loop progress_callback replies video_status video_data
    end
  else mret (video_status, video_data).

(** [_download_video_from_sora]; [self.output_dir] is "generated_videos".
    Whatever the request, the write or [raise_for_status] raises is
    [download_reply]. *)
Definition _download_video_from_sora (w : World) (video_id : string) : M string :=
  match download_reply w with
  | Some e => raise (Exception_ ("Failed to download video: " +:+ str e))
  | None => mret (PyOs.path_join "generated_videos" (video_id +:+ ".mp4"))
  end.

(** [generate_video_with_progress]. *)
Definition generate_video_with_progress (w : World) (script : string)
    (style : VideoStyle) (duration : Z)
    (progress_callback : option (Z → string → M unit))
    (image_urls : list string) : M string :=
  let style_modifier := style_modifiers style in
  let enhanced_prompt := script +:+ " Style: " +:+ style_modifier +:+ "." in
  let sora_duration := get_sora_duration duration in
  let sora_size := get_sora_size true in
  try_except
    (call_back progress_callback 0 "Submitting video to Sora...";;
     let form_data :=
       {| fd_model := "sora-2-pro"; fd_prompt := enhanced_prompt;
          fd_size := sora_size; fd_seconds := sora_duration |} in
     create_response ← lift (create_reply w form_data);
     video_data ←
       (if negb (status_code create_response =? 200) then
          raise (Exception_ ("Sora API returned "
                             +:+ PyStr.of_int (status_code create_response)
                             +:+ ": " +:+ text create_response))
        else lift (json create_response));
     video_id ←
       match vd_id video_data with
       | Some i => mret i
       | None => raise (KeyError "id")
       end;
     let video_status := default "queued" (vd_status video_data) in
     call_back progress_callback 5 "Video queued, waiting for processing...";;
     '(video_status, video_data) ←
       poll_loop progress_callback (polls w) video_status video_data;
     (if String.eqb video_status "failed" then
        raise (Exception_ ("Video generation failed in Sora: "
                           +:+ default "Unknown error" (vd_error video_data)))
      else mret tt);;
     call_back progress_callback 95 "Downloading video...";;
     video_path ← _download_video_from_sora w video_id;
     call_back progress_callback 100 "Video ready!";;
     mret video_path)
    (λ e, raise (Exception_ ("Video generation failed: " +:+ str e))).

(** ** main.py *)

(** [update_sora_progress]. *)
Definition update_sora_progress (job_id : string) (sora_progress : Z)
    (message : string) : M unit :=
  λ video_jobs,
    if bool_decide (is_Some (video_jobs !! job_id)) then
      (p ← lift (displayed_progress sora_progress);
       setattr job_id (set_progress p);;
       setattr job_id (set_message message)) video_jobs
    else (mret tt : M unit) video_jobs.

(** The [try] block of [process_video_generation]. *)
Definition process_video_generation_try (w : World) (job_id : string) (repo_url : Url)
    (api_key : string) (video_style : VideoStyle) (duration : Z) : M unit :=
  setattr job_id (set_status PROCESSING);;
  setattr job_id (set_message "Analyzing repository...");;
  setattr job_id (set_progress 5);;
  repo_data ← lift (ingest_repository w repo_url);
  setattr job_id (set_message "Repository analyzed successfully");;
  setattr job_id (set_progress 15);;
  setattr job_id (set_message "Creating video script with AI...");;
  setattr job_id (set_progress 20);;
  script ← lift (generate_script w repo_data);
  setattr job_id (set_message "Video script created");;
  setattr job_id (set_progress 25);;
  setattr job_id
    (set_message "Starting video generation with Sora (this may take several minutes)...");;
  setattr job_id (set_progress 30);;
  video_path ←
    generate_video_with_progress w script video_style duration
      (Some (λ p m, update_sora_progress job_id p m)) (image_urls repo_data);
  setattr job_id (set_status COMPLETED);;
  setattr job_id (set_message "Video generated successfully!");;
  setattr job_id (set_progress 100);;
  setattr job_id (set_video_path video_path);;
  setattr job_id (set_video_url ("http://localhost:8000/api/video/" +:+ job_id)).

(** The [except Exception as e] block of [process_video_generation]. *)
Definition process_video_generation_except (job_id : string) (e : Exception) : M unit :=
  setattr job_id (set_status FAILED);;
  setattr job_id (set_message ("Error: " +:+ str e));;
  setattr job_id (set_progress 0).

(** [process_video_generation], the background task. *)
Definition process_video_generation (w : World) (job_id : string) (repo_url : Url)
    (api_key : string) (video_style : VideoStyle) (duration : Z) : M unit :=
  try_except
    (process_video_generation_try w job_id repo_url api_key video_style duration)
    (process_video_generation_except job_id).

(** An HTTP error response: [HTTPException(status_code, detail)], and the
    422 the framework answers when the body fails validation. *)
Record HTTPException := { http_status : Z; detail : string }.

(** What [background_tasks.add_task] records. *)
Record Task := {
  task_job_id : string;
  task_repo_url : Url;
  task_api_key : string;
  task_video_style : VideoStyle;
  task_duration : Z
}.

Definition run_task (w : World) (t : Task) : M unit :=
  process_video_generation w (task_job_id t) (task_repo_url t) (task_api_key t)
    (task_video_style t) (task_duration t).

(** [generate_video], the handler of POST /api/generate; [uuid4] is the
    identifier drawn by [uuid.uuid4()]. *)
Definition generate_video (uuid4 : string) (request : VideoGenerationRequest)
    (video_jobs : Jobs) : Jobs * list Task * VideoGenerationResponse :=
  let job_id := uuid4 in
  let video_jobs :=
    <[job_id := {| job_id := job_id; status := PENDING;
                   message := "Video generation queued"; progress := 0;
                   video_url := None; video_path := None; thumbnail_url := None |}]>
      video_jobs in
  let background_tasks :=
    [{| task_job_id := job_id; task_repo_url := repo_url request;
        task_api_key := openai_api_key request;
        task_video_style := video_style request;
        task_duration := duration request |}] in
  (video_jobs, background_tasks,
   {| vgr_job_id := job_id; vgr_message := "Video generation started";
      status_url := "/api/status/" +:+ job_id |}).

(** POST /api/generate as the framework serves it: the body is validated
    against [VideoGenerationRequest] before the handler runs. *)
Definition post_generate (uuid4 : string) (body : VideoGenerationRequest)
    (video_jobs : Jobs)
    : HTTPException + (Jobs * list Task * VideoGenerationResponse) :=
  if valid_request body then inr (generate_video uuid4 body video_jobs)
  else inl {| http_status := 422; detail := "Unprocessable Entity" |}.

(** [get_video_status], GET /api/status/{job_id}. *)
Definition get_video_status (job_id : string) (video_jobs : Jobs)
    : HTTPException + VideoStatusResponse :=
  match video_jobs !! job_id with
  | None => inl {| http_status := 404; detail := "Job not found" |}
  | Some job => inr job
  end.

Record FileResponse := {
  fr_path : string;
  media_type : string;
  filename : string;
  headers : list (string * string)
}.

(** [a or b] for two optional strings. *)
Definition or_else (a b : option string) : option string :=
  match a with
  | Some s => if PyStr.truthy s then a else b
  | None => b
  end.

(** [get_video], GET /api/video/{job_id}; [exists_] is [os.path.exists]. *)
Definition get_video (exists_ : string → bool) (job_id : string) (video_jobs : Jobs)
    : HTTPException + FileResponse :=
  match video_jobs !! job_id with
  | None => inl {| http_status := 404; detail := "Job not found" |}
  | Some job =>
      if negb (bool_decide (status job = COMPLETED)) then
        inl {| http_status := 400; detail := "Video not ready yet" |}
      else
        match or_else (video_path job) (video_url job) with
        | None => inl {| http_status := 404; detail := "Video file not found" |}
        | Some video_path =>
            if negb (PyStr.truthy video_path) then
              inl {| http_status := 404; detail := "Video file not found" |}
            else if exists_ video_path then
              inr {| fr_path := video_path;
                     media_type := "video/mp4";
                     filename := "gitvideo_" +:+ job_id +:+ ".mp4";
                     headers :=
                       [("Accept-Ranges", "bytes");
                        ("Content-Disposition",
                         "inline; filename=gitvideo_" +:+ job_id +:+ ".mp4")] |}
            else
              inl {| http_status := 404;
                     detail := "Video file not found at " +:+ video_path |}
        end
  end.

(** ** Vocabulary of the statements *)

(** The text of a tree, one entry per line. *)
Definition tree_text (entries : list string) : string :=
  PyStr.join (String PyStr.LF "") entries.

(** The successive snapshots of one job in a list of tables. *)
Definition job_history (job_id : string) (tables : list Jobs) : list VideoStatusResponse :=
  omap (λ video_jobs : Jobs, video_jobs !! job_id) tables.


(** The path segments [_parse_github_url] counts. *)
Definition path_parts (url : Url) : list string :=
  PyStr.split "/" (PyStr.strip (path url) ["/"]).

(** The progress values the provider reports over the polls that are
    answered. *)
Definition reported_progress (replies : list (Exception + VideoData)) : list Z :=
  omap (λ reply, match reply with
                 | inr video_data => Some (default 0 (vd_progress video_data))
                 | inl _ => None
                 end) replies.

(** Key-file detection as the specification words it: the lines that
    contain one of the patterns, case-insensitively, in order, each reduced
    to its file name, cut at ten. *)
Definition is_key_line (line : string) : bool :=
  existsb (λ pattern, PyStr.contains (PyStr.lower pattern) (PyStr.lower line)) key_patterns.

Definition line_filename (line : string) : string :=
  PyStr.replace (PyStr.replace line (FOLDER +:+ " ") "") (PAGE +:+ " ") "".

Definition key_files_spec (file_tree : string) : list string :=
  take 10 (List.map line_filename (List.filter is_key_line (PyStr.split PyStr.LF file_tree))).

(** ** Runs of one job: the assertions of the program logic *)

(** The job is in every table of [ws]; each snapshot is related to the one
    before by [step]; the last one is [j'] ([j] itself without a write). *)
Fixpoint chain_to (job_id : string)
    (step : VideoStatusResponse → VideoStatusResponse → Prop)
    (j : VideoStatusResponse) (ws : list Jobs) (j' : VideoStatusResponse) : Prop :=
  match ws with
  | [] => j' = j
  | video_jobs :: ws' =>
      ∃ k, video_jobs !! job_id = Some k ∧ step j k ∧ chain_to job_id step k ws' j'
  end.

(** From a table that holds the job in a state satisfying [P], the run
    keeps the job, links its snapshots by [step], and ends in a state
    satisfying [Q] for the outcome. *)
Definition hoare {A} (job_id : string)
    (step : VideoStatusResponse → VideoStatusResponse → Prop)
    (P : VideoStatusResponse → Prop) (m : M A)
    (Q : Outcome A → VideoStatusResponse → Prop) : Prop :=
  ∀ (video_jobs : Jobs) j, video_jobs !! job_id = Some j → P j →
    ∃ j', chain_to job_id step j (writes (m video_jobs)) j' ∧
          table (m video_jobs) !! job_id = Some j' ∧
          Q (outcome (m video_jobs)) j'.

(** A step relation that allows every assignment. *)
Definition any_step (a b : VideoStatusResponse) : Prop := True.

(** The run never loses the job: it is still a key of the table at the end. *)
Definition keeps {A} (job_id : string) (m : M A) : Prop :=
  hoare job_id any_step (λ _, True) m (λ _ _, True).

(** One observable step: between two Processing snapshots progress does not
    decrease. *)
Definition ok_step (a b : VideoStatusResponse) : Prop :=
  status a = PROCESSING → status b = PROCESSING → progress a ≤ progress b.

(** The job is Processing with progress at most [lo]. *)
Definition processing_below (lo : Z) (j : VideoStatusResponse) : Prop :=
  status j = PROCESSING ∧ progress j ≤ lo.

(** From a Processing job with progress at most [lo], every step of the run
    is an [ok_step], the job stays Processing, and progress is at most [hi]
    if the run returns. *)
Definition mono {A} (job_id : string) (lo hi : Z) (m : M A) : Prop :=
  hoare job_id ok_step (processing_below lo) m
    (λ o j, status j = PROCESSING ∧ ∀ a, o = Returned a → progress j ≤ hi).



(** The claim that a URL whose path has fewer than two segments is refused
    by the submission endpoint. *)
Definition malformed_urls_are_rejected : Prop :=
  ∀ uuid4 body (video_jobs : Jobs),
    (length (path_parts (repo_url body)) < 2)%nat →
    ∃ e, post_generate uuid4 body video_jobs = inl e.



(** ** Concrete requests, jobs and worlds *)

(** A request with one path segment that satisfies every field constraint. *)
Definition one_segment_request : VideoGenerationRequest :=
  {| repo_url := {| scheme := "https"; netloc := "github.com"; path := "/octocat" |};
     openai_api_key := "sk-0123456789abcdefghij";
     video_style := TECH;
     duration := 8 |}.

(** The request of the specification's end-to-end example. *)
Definition hello_world_request : VideoGenerationRequest :=
  {| repo_url := {| scheme := "https"; netloc := "github.com";
                    path := "/octocat/Hello-World" |};
     openai_api_key := "sk-0123456789abcdefghij";
     video_style := TECH;
     duration := 8 |}.

(** A table with one Completed job whose file is recorded. *)
Definition completed_job : VideoStatusResponse :=
  {| job_id := "job-1"; status := COMPLETED; message := "Video generated successfully!";
     progress := 100; video_url := Some "http://localhost:8000/api/video/job-1";
     video_path := Some "generated_videos/video_1.mp4"; thumbnail_url := None |}.

(** A world in which the provider refuses the creation request. *)
Definition refusing_world : World :=
  {| repo_info_reply := inr no_repo_info;
     languages_reply := inr ["Python"];
     readme_reply := inl (HTTPStatusError "404 Not Found");
     tree_reply := inr [];
     topics_reply := inr [];
     completion_reply := inr "A terminal window lists the files of the project.";
     create_reply := λ _, inr {| status_code := 401; text := "invalid api key";
                                 json := inl (ExternalError "no JSON") |};
     polls := [];
     download_reply := None |}.

(** A reply of the video provider with a status and a progress value. *)
Definition poll_reply (st : string) (p : Z) : Exception + VideoData :=
  inr {| vd_id := Some "video_1"; vd_status := Some st; vd_progress := Some p;
         vd_error := None |}.

(** A run in which the provider queues the video, reports 50 and then
    completes at 100. *)
Definition usual_world : World :=
  {| repo_info_reply := inr no_repo_info;
     languages_reply := inr ["Python"];
     readme_reply := inl (HTTPStatusError "404 Not Found");
     tree_reply := inr [];
     topics_reply := inr [];
     completion_reply := inr "A terminal window lists the files of the project.";
     create_reply := λ _, inr {| status_code := 200; text := "";
                                 json := poll_reply "queued" 0 |};
     polls := [poll_reply "queued" 0; poll_reply "in_progress" 50;
               poll_reply "completed" 100];
     download_reply := None |}.


Definition queued_job : VideoStatusResponse :=
  {| job_id := "job-1"; status := PENDING; message := "Video generation queued";
     progress := 0; video_url := None; video_path := None; thumbnail_url := None |}.

(** ** Further vocabulary: what a run may touch *)

(** The form [generate_video_with_progress] posts to the provider. *)
Definition sora_form (script : string) (style : VideoStyle) (duration : Z) : FormData :=
  {| fd_model := "sora-2-pro";
     fd_prompt := script +:+ " Style: " +:+ style_modifiers style +:+ ".";
     fd_size := get_sora_size true;
     fd_seconds := get_sora_duration duration |}.

(** The statements the pipeline of one job is built from. *)
Inductive Built (job_id : string) : ∀ A : Type, M A → Prop :=
  | Built_ret (A : Type) (a : A) : Built job_id A (mret a)
  | Built_raise (A : Type) (e : Exception) : Built job_id A (raise e)
  | Built_suspend (A : Type) : Built job_id A suspend
  | Built_setattr (assign : VideoStatusResponse → VideoStatusResponse) :
      Built job_id unit (setattr job_id assign)
  | Built_update (p : Z) (m : string) :
      Built job_id unit (update_sora_progress job_id p m)
  | Built_bind (A B : Type) (m : M A) (f : A → M B) :
      Built job_id A m → (∀ a, Built job_id B (f a)) → Built job_id B (m ≫= f)
  | Built_try (A : Type) (body : M A) (handler : Exception → M A) :
      Built job_id A body → (∀ e, Built job_id A (handler e)) →
      Built job_id A (try_except body handler).

(** Table [t] holds the same job identifiers as [s] and the same record
    under every identifier other than [job_id]. *)
Definition same_but (job_id : string) (s t : Jobs) : Prop :=
  (∀ k, k ≠ job_id → t !! k = s !! k) ∧
  (∀ k, is_Some (t !! k) ↔ is_Some (s !! k)).

(** The job is Processing. *)
Definition processing (j : VideoStatusResponse) : Prop := status j = PROCESSING.

(** The provider status keeps the poll loop going. *)
Definition still_running (video_status : string) : bool :=
  in_list video_status ["queued"; "in_progress"].

(** Where [_download_video_from_sora] stores the video of a provider
    identifier: [os.path.join(self.output_dir, f"{video_id}.mp4")]. *)
Definition stored_path (video_id : string) : string :=
  PyOs.path_join "generated_videos" (video_id +:+ ".mp4").

(** The provider accepted the creation request for [script] and named the
    video [video_id], and the download succeeded. *)
Definition video_delivered (w : World) (script : string) (style : VideoStyle)
    (duration : Z) (video_id : string) : Prop :=
  ∃ create_response video_data,
    create_reply w (sora_form script style duration) = inr create_response ∧
    status_code create_response = 200 ∧
    json create_response = inr video_data ∧
    vd_id video_data = Some video_id ∧
    download_reply w = None.

(** How [generate_video_with_progress] leaves a Processing job. *)
Definition video_stage_post (w : World) (script : string) (style : VideoStyle)
    (duration : Z) (o : Outcome string) (j : VideoStatusResponse) : Prop :=
  processing j ∧
  match o with
  | Returned video_path =>
      ∃ video_id, video_delivered w script style duration video_id ∧
                  video_path = stored_path video_id
  | Raised e => ∃ msg, e = Exception_ ("Video generation failed: " +:+ msg)
  | Suspended => True
  end.

(** The job is Completed at 100 with the public URL of the download
    endpoint and the stored file of the video the provider delivered for the
    generated script. *)
Definition completed_with (w : World) (job_id : string) (style : VideoStyle)
    (duration : Z) (j : VideoStatusResponse) : Prop :=
  status j = COMPLETED ∧ progress j = 100 ∧
  message j = "Video generated successfully!" ∧
  video_url j = Some ("http://localhost:8000/api/video/" +:+ job_id) ∧
  ∃ script video_id,
    completion_reply w = inr script ∧
    video_delivered w script style duration video_id ∧
    video_path j = Some (stored_path video_id).

(** The job is Failed at 0 with a message that starts with "Error: ". *)
Definition failed_with_error (j : VideoStatusResponse) : Prop :=
  status j = FAILED ∧ progress j = 0 ∧ ∃ d, message j = "Error: " +:+ d.

(** A poll reply that keeps the loop going: it is answered, its status is
    "queued" or "in_progress" (or absent), its progress lies in 0..100. *)
Definition running_reply (reply : Exception + VideoData) : Prop :=
  ∃ video_data, reply = inr video_data ∧
    still_running (default "in_progress" (vd_status video_data)) = true ∧
    0 ≤ default 0 (vd_progress video_data) ≤ 100.

(** The message of the error [generate_video_with_progress] raises when the
    provider answers the creation request with a status code other than
    200. *)
Definition refusal_message (create_response : CreateResponse) : string :=
  "Video generation failed: Sora API returned "
  +:+ PyStr.of_int (status_code create_response)
  +:+ ": " +:+ text create_response.

(** [generate_video_with_progress] from the poll loop on, for the video
    the provider created. *)
Definition polling_stage (job_id : string) (w : World) (video_id : string)
    (video_status : string) (video_data : VideoData) : M string :=
  '(video_status, video_data) ←
    poll_loop (Some (λ p m, update_sora_progress job_id p m)) (polls w)
      video_status video_data;
  (if String.eqb video_status "failed" then
     raise (Exception_ ("Video generation failed in Sora: "
                        +:+ default "Unknown error" (vd_error video_data)))
   else mret tt);;
  update_sora_progress job_id 95 "Downloading video...";;
  video_path ← _download_video_from_sora w video_id;
  update_sora_progress job_id 100 "Video ready!";;
  mret video_path.

(** The [try] block of [process_video_generation] from the call of
    [generate_video_with_progress] on. *)
Definition video_stage_and_after (job_id : string) (w : World) (script : string)
    (style : VideoStyle) (duration : Z) (image_urls : list string) : M unit :=
  video_path ←
    generate_video_with_progress w script style duration
      (Some (λ p m, update_sora_progress job_id p m)) image_urls;
  setattr job_id (set_status COMPLETED);;
  setattr job_id (set_message "Video generated successfully!");;
  setattr job_id (set_progress 100);;
  setattr job_id (set_video_path video_path);;
  setattr job_id (set_video_url ("http://localhost:8000/api/video/" +:+ job_id)).

(** The URL parses and the script request is answered with [script]. *)
Definition script_written (w : World) (repo_url : Url) (script : string) : Prop :=
  (∃ owner repo, _parse_github_url repo_url = inr (owner, repo)) ∧
  completion_reply w = inr script.

(** The provider answers the creation request for [script] with 200 and the
    JSON object [video_data] naming the video [video_id]. *)
Definition video_created (w : World) (script : string) (style : VideoStyle)
    (duration : Z) (video_id : string) (video_data : VideoData) : Prop :=
  ∃ create_response,
    create_reply w (sora_form script style duration) = inr create_response ∧
    status_code create_response = 200 ∧
    json create_response = inr video_data ∧
    vd_id video_data = Some video_id.

(** A run in which the provider is still working after two polls. *)
Definition waiting_world : World :=
  {| repo_info_reply := inr no_repo_info;
     languages_reply := inr ["Python"];
     readme_reply := inl (HTTPStatusError "404 Not Found");
     tree_reply := inr [];
     topics_reply := inr [];
     completion_reply := inr "A terminal window lists the files of the project.";
     create_reply := λ _, inr {| status_code := 200; text := "";
                                 json := poll_reply "queued" 0 |};
     polls := [poll_reply "queued" 0; poll_reply "in_progress" 40];
     download_reply := None |}.

(** A run in which the provider gives up on the video at the second poll. *)
Definition failing_world : World :=
  {| repo_info_reply := inr no_repo_info;
     languages_reply := inr ["Python"];
     readme_reply := inl (HTTPStatusError "404 Not Found");
     tree_reply := inr [];
     topics_reply := inr [];
     completion_reply := inr "A terminal window lists the files of the project.";
     create_reply := λ _, inr {| status_code := 200; text := "";
                                 json := poll_reply "queued" 0 |};
     polls := [poll_reply "queued" 0;
               inr {| vd_id := Some "video_1"; vd_status := Some "failed";
                      vd_progress := Some 10; vd_error := Some "moderation" |}];
     download_reply := None |}.

(** ** Further vocabulary: the range of the progress shown *)

(** Every value the callback stores for provider progress [p] satisfies
    [R]. *)
Definition stored_ok (R : Z → Prop) (p : Z) : Prop :=
  ∀ v, displayed_progress p = inr v → R v.

(** From a job whose progress satisfies [R], the progress of every snapshot
    of the run satisfies [R]. *)
Definition within {A} (job_id : string) (R : Z → Prop) (m : M A) : Prop :=
  hoare job_id (λ _ k, R (progress k)) (λ j, R (progress j)) m
    (λ _ j, R (progress j)).

(** A run in which the provider delivers but the download is refused. *)
Definition lost_download_world : World :=
  {| repo_info_reply := inr no_repo_info;
     languages_reply := inr ["Python"];
     readme_reply := inl (HTTPStatusError "404 Not Found");
     tree_reply := inr [];
     topics_reply := inr [];
     completion_reply := inr "A terminal window lists the files of the project.";
     create_reply := λ _, inr {| status_code := 200; text := "";
                                 json := poll_reply "queued" 0 |};
     polls := [poll_reply "completed" 100];
     download_reply := Some (HTTPStatusError "404 Not Found") |}.

(** ** Further vocabulary: text, trees and image URLs *)

(** Character [c] occurs in [s]. *)
Definition has_char (c : ascii) (s : string) : bool :=
  existsb (Ascii.eqb c) (list_ascii_of_string s).

(** Every byte of [s] is an ASCII character. *)
Definition ascii_only (s : string) : bool :=
  forallb (λ c, (nat_of_ascii c <? 128)%nat) (list_ascii_of_string s).

(** The line [_fetch_file_tree] renders for one entry of the tree. *)
Definition tree_line (item : TreeItem) : string :=
  (if String.eqb (ti_type item) "tree" then FOLDER else PAGE) +:+ " " +:+ ti_path item.

(** A path contains one of the key patterns, case-insensitively. *)
Definition is_key_path (p : string) : bool :=
  existsb (λ pattern, PyStr.contains (PyStr.lower pattern) (PyStr.lower p)) key_patterns.

(** [lower_filename] ends with one of the image extensions. *)
Definition is_image_name (filename : string) : bool :=
  existsb (λ ext, PyStr.endswith (PyStr.lower filename) ext) image_extensions.

(** [url] is the raw-content URL, on branch main of [owner]/[repo], of an
    image file name, at the top level or under one of the asset directories
    whose name occurs in the tree. *)
Definition image_url_of (file_tree owner repo url : string) : Prop :=
  ∃ filename, is_image_name filename = true ∧
    (url = raw_base owner repo +:+ filename ∨
     ∃ subdir, In subdir asset_subdirs ∧
               PyStr.contains subdir (PyStr.lower file_tree) = true ∧
               url = raw_base owner repo +:+ subdir +:+ "/" +:+ filename).

(** The five fetches of [ingest_repository] all raise. *)
Definition all_fetches_fail (w : World) : Prop :=
  (∃ e, repo_info_reply w = inl e) ∧ (∃ e, languages_reply w = inl e) ∧
  (∃ e, readme_reply w = inl e) ∧ (∃ e, tree_reply w = inl e) ∧
  (∃ e, topics_reply w = inl e).

(** A run in which the repository host cannot be reached. *)
Definition unreachable_world : World :=
  {| repo_info_reply := inl (ExternalError "All connection attempts failed");
     languages_reply := inl (ExternalError "All connection attempts failed");
     readme_reply := inl (ExternalError "All connection attempts failed");
     tree_reply := inl (ExternalError "All connection attempts failed");
     topics_reply := inl (ExternalError "All connection attempts failed");
     completion_reply := inr "A terminal window lists the files of the project.";
     create_reply := λ _, inr {| status_code := 200; text := "";
                                 json := poll_reply "queued" 0 |};
     polls := [];
     download_reply := None |}.

(** A repository with a folder, two sources and a container file. *)
Definition docker_world : World :=
  {| repo_info_reply := inr no_repo_info;
     languages_reply := inr ["Go"];
     readme_reply := inr "A small service.";
     tree_reply := inr [{| ti_path := "cmd"; ti_type := "tree" |};
                        {| ti_path := "cmd/main.go"; ti_type := "blob" |};
                        {| ti_path := "deploy/Dockerfile.dev"; ti_type := "blob" |};
                        {| ti_path := "go.mod"; ti_type := "blob" |}];
     topics_reply := inr [];
     completion_reply := inr "A terminal window lists the files of the project.";
     create_reply := λ _, inr {| status_code := 200; text := "";
                                 json := poll_reply "queued" 0 |};
     polls := [];
     download_reply := None |}.

(** * Properties *)

(** ** Duration mapping *)

(** C5: the requested duration is mapped by thresholds, at most 4 to "4",
    at most 8 to "8", anything larger to "12"; so 3 and 4 give 4, 5 and 8
    give 8, 9 and 12 give 12. *)
Theorem get_sora_duration_thresholds (d : Z) :
  (d ≤ 4 → get_sora_duration d = "4") ∧
  (4 < d ≤ 8 → get_sora_duration d = "8") ∧
  (8 < d → get_sora_duration d = "12") ∧
  List.map get_sora_duration [3; 4; 5; 8; 9; 12] = ["4"; "4"; "8"; "8"; "12"; "12"].
Proof.
  unfold get_sora_duration. repeat split; intros.
  - destruct (Z.leb_spec d 4); [reflexivity | lia].
  - destruct (Z.leb_spec d 4); [lia |].
    destruct (Z.leb_spec d 8); [reflexivity | lia].
  - destruct (Z.leb_spec d 4); [lia |].
    destruct (Z.leb_spec d 8); [lia | reflexivity].
Qed.

Lemma get_sora_duration_thresholds_witness :
  get_sora_duration 3 = "4" ∧ get_sora_duration 7 = "8" ∧ get_sora_duration 30 = "12".
Proof.
  split; [| split].
  - apply (proj1 (get_sora_duration_thresholds 3)). lia.
  - apply (proj1 (proj2 (get_sora_duration_thresholds 7))). lia.
  - apply (proj1 (proj2 (proj2 (get_sora_duration_thresholds 30)))). lia.
Defined.

(** ** The 30-95 progress band *)

(** Every integer of [0, n) passes a boolean test that the list of them
    passes. *)
Lemma forallb_below (f : Z → bool) (n : nat) :
  forallb f (List.map Z.of_nat (seq 0 n)) = true →
  ∀ p, 0 ≤ p < Z.of_nat n → f p = true.
Proof.
  intros Hall p Hp.
  rewrite forallb_forall in Hall. apply Hall.
  rewrite <- (Z2Nat.id p) by lia.
  apply in_map, in_seq. lia.
Qed.

(** On provider progress 0..100 the binary64 product truncates to the
    integer quotient of 65 p by 100. *)
Lemma displayed_progress_exact (p : Z) :
  0 ≤ p ≤ 100 → displayed_progress p = inr (Z.min (30 + 65 * p / 100) 95).
Proof.
  intros Hp.
  pose (f := λ p : Z,
          match displayed_progress p with
          | inr v => v =? Z.min (30 + 65 * p / 100) 95
          | inl _ => false
          end).
  assert (Hf : f p = true).
  { apply (forallb_below f 101); [vm_compute; reflexivity | lia]. }
  unfold f in Hf. destruct (displayed_progress p) as [e | v]; [discriminate |].
  apply Z.eqb_eq in Hf. congruence.
Qed.

(** The literal 0.65 is the binary64 number nearest to 65/100: a 53-bit
    significand scaled by 2^-53, within half a unit in the last place. *)
Lemma lit_0_65_nearest :
  match PyFloat.lit_0_65 with
  | S754_finite false m e =>
      e = -53 ∧ 2 ^ 52 ≤ Zpos m < 2 ^ 53 ∧ Z.abs (100 * Zpos m - 65 * 2 ^ 53) ≤ 50
  | _ => False
  end.
Proof. vm_compute. repeat split; discriminate. Qed.



(** ** The endpoints *)

(** C10: for a job identifier that is not a key of the table the progress
    callback returns normally, assigns nothing and leaves the table as it
    was, whatever the progress value and the message. *)
Theorem update_sora_progress_unknown_job (job_id : string) (sora_progress : Z)
    (message : string) (video_jobs : Jobs) :
  video_jobs !! job_id = None →
  update_sora_progress job_id sora_progress message video_jobs
  = MkRun [] video_jobs (Returned tt).
Proof.
  intros Hnone. unfold update_sora_progress.
  rewrite bool_decide_eq_false_2; [reflexivity |].
  rewrite Hnone. intros [j Hj]. discriminate.
Qed.

Lemma update_sora_progress_unknown_job_witness :
  update_sora_progress "job-2" (2 ^ 2000) "Queued..." ∅ = MkRun [] ∅ (Returned tt).
Proof.
  apply (update_sora_progress_unknown_job "job-2" (2 ^ 2000) "Queued..." ∅).
  apply lookup_empty.
Defined.

(** C9: a valid submission is accepted, and the status endpoint asked for
    the returned identifier on the table the submission leaves answers a job
    that is Pending with progress 0. *)
Theorem status_after_submit (uuid4 : string) (body : VideoGenerationRequest)
    (video_jobs : Jobs) :
  valid_request body = true →
  ∃ video_jobs' tasks response job,
    post_generate uuid4 body video_jobs = inr (video_jobs', tasks, response) ∧
    get_video_status (vgr_job_id response) video_jobs' = inr job ∧
    status job = PENDING ∧ progress job = 0.
Proof.
  intros Hvalid. unfold post_generate. rewrite Hvalid.
  unfold generate_video. do 4 eexists. split; [reflexivity |].
  unfold get_video_status. cbn [vgr_job_id].
  rewrite lookup_insert_eq. auto.
Qed.

Lemma status_after_submit_witness :
  ∃ video_jobs' tasks response job,
    post_generate "job-1" hello_world_request ∅ = inr (video_jobs', tasks, response) ∧
    get_video_status (vgr_job_id response) video_jobs' = inr job ∧
    status job = PENDING ∧ progress job = 0.
Proof.
  apply (status_after_submit "job-1" hello_world_request ∅). reflexivity.
Defined.

(** C6: the download endpoint answers 404 for an unknown identifier, 400
    for a job that is not Completed, 404 for a Completed job whose recorded
    path is not on disk, and the file at the recorded path otherwise. *)
Theorem get_video_cases (exists_ : string → bool) (job_id : string) (video_jobs : Jobs) :
  (video_jobs !! job_id = None →
     ∃ d, get_video exists_ job_id video_jobs = inl {| http_status := 404; detail := d |}) ∧
  (∀ job, video_jobs !! job_id = Some job → status job ≠ COMPLETED →
     ∃ d, get_video exists_ job_id video_jobs = inl {| http_status := 400; detail := d |}) ∧
  (∀ job p, video_jobs !! job_id = Some job → status job = COMPLETED →
     video_path job = Some p → p ≠ "" → exists_ p = false →
     ∃ d, get_video exists_ job_id video_jobs = inl {| http_status := 404; detail := d |}) ∧
  (∀ job p, video_jobs !! job_id = Some job → status job = COMPLETED →
     video_path job = Some p → p ≠ "" → exists_ p = true →
     ∃ r, get_video exists_ job_id video_jobs = inr r ∧ fr_path r = p ∧
          media_type r = "video/mp4").
Proof.
  assert (Htruthy : ∀ p, p ≠ "" → PyStr.truthy p = true).
  { intros p Hp. unfold PyStr.truthy. destruct (String.eqb_spec p ""); [contradiction | reflexivity]. }
  unfold get_video. repeat split.
  - intros ->. eauto.
  - intros job -> Hst. rewrite bool_decide_eq_false_2 by exact Hst. cbn. eauto.
  - intros job p -> Hst Hp Hne Hex.
    rewrite bool_decide_eq_true_2 by exact Hst. cbn.
    unfold or_else. rewrite Hp, (Htruthy p Hne), (Htruthy p Hne), Hex. cbn. eauto.
  - intros job p -> Hst Hp Hne Hex.
    rewrite bool_decide_eq_true_2 by exact Hst. cbn.
    unfold or_else. rewrite Hp, (Htruthy p Hne), (Htruthy p Hne), Hex. cbn. eauto.
Qed.

Lemma get_video_cases_witness :
  (∃ d, get_video (λ _, true) "job-9" {[ "job-1" := completed_job ]}
        = inl {| http_status := 404; detail := d |}) ∧
  (∃ d, get_video (λ _, true) "job-1" {[ "job-1" := set_status PROCESSING completed_job ]}
        = inl {| http_status := 400; detail := d |}) ∧
  (∃ d, get_video (λ _, false) "job-1" {[ "job-1" := completed_job ]}
        = inl {| http_status := 404; detail := d |}) ∧
  (∃ r, get_video (λ _, true) "job-1" {[ "job-1" := completed_job ]} = inr r ∧
        fr_path r = "generated_videos/video_1.mp4" ∧ media_type r = "video/mp4").
Proof.
  split; [| split; [| split]].
  - apply (proj1 (get_video_cases (λ _, true) "job-9" {[ "job-1" := completed_job ]})).
    vm_compute. reflexivity.
  - apply (proj1 (proj2 (get_video_cases (λ _, true) "job-1"
               {[ "job-1" := set_status PROCESSING completed_job ]}))
             (set_status PROCESSING completed_job)).
    + vm_compute. reflexivity.
    + discriminate.
  - apply (proj1 (proj2 (proj2 (get_video_cases (λ _, false) "job-1"
               {[ "job-1" := completed_job ]}))) completed_job
             "generated_videos/video_1.mp4").
    + vm_compute. reflexivity.
    + reflexivity.
    + reflexivity.
    + discriminate.
    + reflexivity.
  - apply (proj2 (proj2 (proj2 (get_video_cases (λ _, true) "job-1"
               {[ "job-1" := completed_job ]}))) completed_job
             "generated_videos/video_1.mp4").
    + vm_compute. reflexivity.
    + reflexivity.
    + reflexivity.
    + discriminate.
    + reflexivity.
Defined.

(** ** Scanning the file tree *)

Lemma scan_patterns_spec (patterns : list string) (line : string) (key_files : list string) :
  scan_patterns patterns line key_files
  = if existsb (λ pattern, PyStr.contains (PyStr.lower pattern) (PyStr.lower line)) patterns
    then key_files ++ [line_filename line]
    else key_files.
Proof.
  induction patterns as [| pattern rest IH]; cbn [scan_patterns existsb]; [reflexivity |].
  destruct (PyStr.contains (PyStr.lower pattern) (PyStr.lower line)); [reflexivity | exact IH].
Qed.

Lemma scan_lines_spec (tree_lines : list string) (key_files : list string) :
  fold_left (λ key_files line, scan_patterns key_patterns line key_files) tree_lines key_files
  = key_files ++ List.map line_filename (List.filter is_key_line tree_lines).
Proof.
  revert key_files.
  induction tree_lines as [| line rest IH]; intros key_files; cbn [fold_left List.filter].
  - cbn. now rewrite app_nil_r.
  - rewrite IH, scan_patterns_spec. fold (is_key_line line).
    destruct (is_key_line line); cbn [List.map]; [| reflexivity].
    now rewrite <- app_assoc.
Qed.

(** The two characters outside ASCII that lower to ASCII text are lowered as
    [str.lower] lowers them; a line that spells Dockerfile with U+212A KELVIN
    SIGN is a key line, and its file name is reported with the sign kept. *)
Lemma lower_outside_ascii :
  PyStr.lower "K" = "k" ∧
  PyStr.lower "İ" = "i̇" ∧
  is_key_line "📄 DocKerfile" = true ∧
  _identify_key_files "📄 DocKerfile" = ["DocKerfile"].
Proof. repeat split; vm_compute; reflexivity. Qed.

(** C7: key-file detection returns the file names of the lines that contain
    one of the twelve patterns case-insensitively, in line order, cut at ten;
    on the tree of the two lines "📄 package.json" and "📄 random.txt" it
    returns exactly "package.json".  The case folding is that of
    [str.lower] as far as a match with a pattern can tell, see
    [PyStr.lower]. *)
Theorem identify_key_files_spec :
  (∀ file_tree, _identify_key_files file_tree = key_files_spec file_tree) ∧
  (∀ file_tree, (length (_identify_key_files file_tree) ≤ 10)%nat) ∧
  key_patterns = ["README"; "LICENSE"; "CONTRIBUTING"; "package.json";
                  "requirements.txt"; "Cargo.toml"; "setup.py"; "pyproject.toml";
                  "go.mod"; "Dockerfile"; "docker-compose"; ".github/workflows"] ∧
  is_key_line "📄 package.json" = true ∧
  line_filename "📄 package.json" = "package.json" ∧
  is_key_line "📄 random.txt" = false ∧
  _identify_key_files (tree_text ["📄 package.json"; "📄 random.txt"]) = ["package.json"].
Proof.
  split; [| split].
  - intros file_tree. unfold _identify_key_files, key_files_spec.
    now rewrite scan_lines_spec.
  - intros file_tree. unfold _identify_key_files. rewrite length_take. lia.
  - repeat split; vm_compute; reflexivity.
Qed.

(** C3, at the tree of a repository that holds a.png and docs/a.png: the
    raw-content URL of docs/a.png is appended although the guess made for
    a.png under docs is already in the list, so the result repeats a URL. *)
Theorem extract_image_urls_repeats_url :
  _extract_image_urls (tree_text ["📄 a.png"; "📁 docs"; "📄 docs/a.png"]) "o" "r"
  = ["https://raw.githubusercontent.com/o/r/main/a.png";
     "https://raw.githubusercontent.com/o/r/main/docs/a.png";
     "https://raw.githubusercontent.com/o/r/main/docs/a.png";
     "https://raw.githubusercontent.com/o/r/main/docs/docs/a.png"] ∧
  ¬ NoDup (_extract_image_urls (tree_text ["📄 a.png"; "📁 docs"; "📄 docs/a.png"]) "o" "r").
Proof.
  assert (Heq : _extract_image_urls (tree_text ["📄 a.png"; "📁 docs"; "📄 docs/a.png"]) "o" "r"
                = ["https://raw.githubusercontent.com/o/r/main/a.png";
                   "https://raw.githubusercontent.com/o/r/main/docs/a.png";
                   "https://raw.githubusercontent.com/o/r/main/docs/a.png";
                   "https://raw.githubusercontent.com/o/r/main/docs/docs/a.png"])
    by (vm_compute; reflexivity).
  split; [exact Heq |].
  rewrite Heq. intros Hnd.
  apply NoDup_cons_1_2 in Hnd. apply NoDup_cons_1_1 in Hnd.
  apply Hnd. left.
Qed.

(** The tree text above is what [_fetch_file_tree] renders for the tree
    entries a.png, docs and docs/a.png, in the order of a git tree. *)
Lemma repeating_tree_is_rendered (w : World) :
  tree_reply w = inr [ {| ti_path := "a.png"; ti_type := "blob" |};
                       {| ti_path := "docs"; ti_type := "tree" |};
                       {| ti_path := "docs/a.png"; ti_type := "blob" |} ] →
  _fetch_file_tree w = inr (tree_text ["📄 a.png"; "📁 docs"; "📄 docs/a.png"]).
Proof. intros H. unfold _fetch_file_tree. rewrite H. reflexivity. Qed.

(** Image-URL extraction never returns more than five URLs. *)
Theorem extract_image_urls_at_most_5 (file_tree owner repo : string) :
  (length (_extract_image_urls file_tree owner repo) ≤ 5)%nat.
Proof. unfold _extract_image_urls. rewrite length_take. lia. Qed.

Lemma eqb_app_l (a b c : string) : String.eqb (a +:+ b) (a +:+ c) = String.eqb b c.
Proof.
  induction a as [| x a IH]; simpl; [reflexivity |].
  now rewrite Ascii.eqb_refl.
Qed.

(** On the tree of the two lines "📄 logo.png" and "📁 assets" the result is
    the raw-content URL of logo.png followed by the guess under assets. *)
Theorem extract_image_urls_logo (owner repo : string) :
  _extract_image_urls (tree_text ["📄 logo.png"; "📁 assets"]) owner repo
  = [raw_base owner repo +:+ "logo.png"; raw_base owner repo +:+ "assets/logo.png"].
Proof.
  unfold _extract_image_urls.
  change (PyStr.split PyStr.LF (tree_text ["📄 logo.png"; "📁 assets"]))
    with ["📄 logo.png"; "📁 assets"].
  cbn [fold_left].
  set (t := tree_text ["📄 logo.png"; "📁 assets"]).
  assert (H2 : ∀ l, scan_image_line t owner repo l "📁 assets" = l) by (intros l; reflexivity).
  rewrite H2.
  unfold scan_image_line.
  change (PyStr.truthy (PyStr.strip_ws "📄 logo.png")) with true.
  cbn [negb].
  change (PyStr.strip_ws
            (PyStr.replace
               (PyStr.replace (PyStr.lstrip "📄 logo.png" tree_chars) (FOLDER +:+ " ") "")
               (PAGE +:+ " ") "")) with "logo.png".
  change (PyStr.truthy "logo.png") with true. cbn [negb].
  change (existsb (λ ext, PyStr.endswith (PyStr.lower "logo.png") ext) image_extensions)
    with true.
  cbv iota.
  unfold asset_subdirs. cbn [fold_left].
  change (PyStr.contains "assets" (PyStr.lower t)) with true.
  change (PyStr.contains "images" (PyStr.lower t)) with false.
  change (PyStr.contains "img" (PyStr.lower t)) with false.
  change (PyStr.contains "docs" (PyStr.lower t)) with false.
  change (PyStr.contains "static" (PyStr.lower t)) with false.
  change (PyStr.contains "public" (PyStr.lower t)) with false.
  cbv iota. cbn [app in_list existsb].
  rewrite eqb_app_l. cbn.
  reflexivity.
Qed.

(** ** A program logic for the runs of one job *)

Section JobLogic.
Context (job_id : string) (step : VideoStatusResponse → VideoStatusResponse → Prop).

(** Chains compose along the concatenation of the writes. *)
Lemma chain_to_app j ws1 k ws2 j' :
  chain_to job_id step j ws1 k → chain_to job_id step k ws2 j' →
  chain_to job_id step j (ws1 ++ ws2) j'.
Proof.
  revert j. induction ws1 as [| t ws1 IH]; intros j H1 H2; cbn in *.
  - now subst k.
  - destruct H1 as (k' & Hk' & Hs & Hc). exists k'. eauto.
Qed.


Lemma hoare_ret {A} (a : A) (P : VideoStatusResponse → Prop) Q :
  (∀ j, P j → Q (Returned a) j) → hoare job_id step P (mret a) Q.
Proof. intros H s j Hs Hj. exists j. cbn. auto. Qed.

Lemma hoare_raise {A} (e : Exception) (P : VideoStatusResponse → Prop)
    (Q : Outcome A → VideoStatusResponse → Prop) :
  (∀ j, P j → Q (Raised e) j) → hoare job_id step P (raise e) Q.
Proof. intros H s j Hs Hj. exists j. cbn. auto. Qed.

Lemma hoare_suspend {A} (P : VideoStatusResponse → Prop)
    (Q : Outcome A → VideoStatusResponse → Prop) :
  (∀ j, P j → Q Suspended j) → hoare job_id step P suspend Q.
Proof. intros H s j Hs Hj. exists j. cbn. auto. Qed.

Lemma hoare_lift {A} (r : Exception + A) (P : VideoStatusResponse → Prop) Q :
  (∀ e, r = inl e → ∀ j, P j → Q (Raised e) j) →
  (∀ a, r = inr a → ∀ j, P j → Q (Returned a) j) →
  hoare job_id step P (lift r) Q.
Proof.
  intros He Ha. destruct r as [e | a]; cbn.
  - apply hoare_raise. eauto.
  - apply hoare_ret. eauto.
Qed.

Lemma hoare_setattr (assign : VideoStatusResponse → VideoStatusResponse)
    (P : VideoStatusResponse → Prop) Q :
  (∀ j, P j → step j (assign j) ∧ Q (Returned tt) (assign j)) →
  hoare job_id step P (setattr job_id assign) Q.
Proof.
  intros H s j Hs Hj. destruct (H j Hj) as [Hstep HQ].
  exists (assign j). unfold setattr. rewrite Hs. cbn.
  rewrite lookup_insert_eq. split; [| auto].
  exists (assign j). auto.
Qed.

Lemma hoare_bind {A B} (m : M A) (f : A → M B) (P : VideoStatusResponse → Prop)
    (R : Outcome A → VideoStatusResponse → Prop) Q :
  hoare job_id step P m R →
  (∀ a, hoare job_id step (R (Returned a)) (f a) Q) →
  (∀ e j, R (Raised e) j → Q (Raised e) j) →
  (∀ j, R Suspended j → Q Suspended j) →
  hoare job_id step P (m ≫= f) Q.
Proof.
  intros Hm Hf He Hsus s j Hs Hj.
  destruct (Hm s j Hs Hj) as (k & Hc & Ht & HR).
  unfold mbind, M_bind.
  destruct (outcome (m s)) as [a | e |]; cbn.
  - destruct (Hf a (table (m s)) k Ht HR) as (j' & Hc' & Ht' & HQ).
    exists j'. split; [| auto]. eapply chain_to_app; eauto.
  - exists k. auto.
  - exists k. auto.
Qed.

Lemma hoare_try {A} (body : M A) (handler : Exception → M A)
    (P : VideoStatusResponse → Prop) (R : Outcome A → VideoStatusResponse → Prop) Q :
  hoare job_id step P body R →
  (∀ e, hoare job_id step (R (Raised e)) (handler e) Q) →
  (∀ a j, R (Returned a) j → Q (Returned a) j) →
  (∀ j, R Suspended j → Q Suspended j) →
  hoare job_id step P (try_except body handler) Q.
Proof.
  intros Hm Hh Hret Hsus s j Hs Hj.
  destruct (Hm s j Hs Hj) as (k & Hc & Ht & HR).
  unfold try_except.
  destruct (outcome (body s)) as [a | e |] eqn:Ho; cbn.
  - exists k. rewrite Ho. auto.
  - destruct (Hh e (table (body s)) k Ht HR) as (j' & Hc' & Ht' & HQ).
    exists j'. split; [| auto]. eapply chain_to_app; eauto.
  - exists k. rewrite Ho. auto.
Qed.

Lemma hoare_update (sora_progress : Z) (message : string)
    (P : VideoStatusResponse → Prop) Q :
  (∀ e, displayed_progress sora_progress = inl e → ∀ j, P j → Q (Raised e) j) →
  (∀ v, displayed_progress sora_progress = inr v → ∀ j, P j →
     step j (set_progress v j) ∧
     step (set_progress v j) (set_message message (set_progress v j)) ∧
     Q (Returned tt) (set_message message (set_progress v j))) →
  hoare job_id step P (update_sora_progress job_id sora_progress message) Q.
Proof.
  intros He Hv.
  assert (H : hoare job_id step P
                (p ← lift (displayed_progress sora_progress);
                 setattr job_id (set_progress p);;
                 setattr job_id (set_message message)) Q);
    [| intros s j Hs Hj; unfold update_sora_progress;
       rewrite bool_decide_eq_true_2 by (rewrite Hs; eauto);
       exact (H s j Hs Hj)].
  eapply hoare_bind with
    (R := λ o j, match o with
                 | Returned v => displayed_progress sora_progress = inr v ∧ P j
                 | Raised e => displayed_progress sora_progress = inl e ∧ P j
                 | Suspended => False
                 end).
  - apply hoare_lift; intros; auto.
  - intros v.
    eapply hoare_bind with
      (R := λ o j, match o with
                   | Returned _ =>
                       step j (set_message message j) ∧
                       Q (Returned tt) (set_message message j)
                   | _ => False
                   end).
    + apply hoare_setattr. intros j [Hd Hj]. destruct (Hv v Hd j Hj) as (? & ? & ?). auto.
    + intros []. apply hoare_setattr. intros j [? ?]. auto.
    + intros e j [].
    + intros j [].
  - intros e j [Hd Hj]. eauto.
  - intros j [].
Qed.

Lemma hoare_bind_ret {A B} (a : A) (f : A → M B) (P : VideoStatusResponse → Prop) Q :
  hoare job_id step P (f a) Q → hoare job_id step P (mret a ≫= f) Q.
Proof.
  intros H s j Hs Hj. destruct (H s j Hs Hj) as (j' & ? & ? & ?).
  exists j'. unfold mbind, M_bind, mret, M_ret. cbn. auto.
Qed.

Lemma hoare_bind_raise {A B} (e : Exception) (f : A → M B)
    (P : VideoStatusResponse → Prop) Q :
  (∀ j, P j → Q (Raised e) j) → hoare job_id step P (raise e ≫= f) Q.
Proof.
  intros H s j Hs Hj. exists j.
  unfold mbind, M_bind, raise. cbn. auto.
Qed.

Lemma hoare_bind_lift {A B} (r : Exception + A) (f : A → M B)
    (P : VideoStatusResponse → Prop) Q :
  (∀ e, r = inl e → ∀ j, P j → Q (Raised e) j) →
  (∀ a, r = inr a → hoare job_id step P (f a) Q) →
  hoare job_id step P (lift r ≫= f) Q.
Proof.
  intros He Ha. destruct r as [e | a]; cbn [lift].
  - apply hoare_bind_raise. eauto.
  - apply hoare_bind_ret. eauto.
Qed.

(** An assignment to the job followed by the rest of the block. *)
Lemma hoare_setattr_then {B} (assign : VideoStatusResponse → VideoStatusResponse)
    (rest : M B) (P P' : VideoStatusResponse → Prop) Q :
  (∀ j, P j → step j (assign j) ∧ P' (assign j)) →
  hoare job_id step P' rest Q →
  hoare job_id step P (setattr job_id assign;; rest) Q.
Proof.
  intros Hassign Hrest.
  eapply hoare_bind with
    (R := λ o j, match o with Returned _ => P' j | _ => False end).
  - apply hoare_setattr. exact Hassign.
  - intros _. exact Hrest.
  - intros e j [].
  - intros j [].
Qed.

End JobLogic.

(** ** The background pipeline keeps the job it works on *)

Section Keeps.
Context (job_id : string).

Lemma keeps_ret {A} (a : A) : keeps job_id (mret a).
Proof. apply hoare_ret. auto. Qed.

Lemma keeps_raise {A} (e : Exception) : keeps job_id (raise e : M A).
Proof. apply hoare_raise. auto. Qed.

Lemma keeps_suspend {A} : keeps job_id (suspend : M A).
Proof. apply hoare_suspend. auto. Qed.

Lemma keeps_lift {A} (r : Exception + A) : keeps job_id (lift r).
Proof. apply hoare_lift; auto. Qed.

Lemma keeps_setattr assign : keeps job_id (setattr job_id assign).
Proof. apply hoare_setattr. intros. split; [exact I | auto]. Qed.

Lemma keeps_bind {A B} (m : M A) (f : A → M B) :
  keeps job_id m → (∀ a, keeps job_id (f a)) → keeps job_id (m ≫= f).
Proof. intros Hm Hf. eapply hoare_bind; eauto. Qed.

Lemma keeps_try {A} (body : M A) (handler : Exception → M A) :
  keeps job_id body → (∀ e, keeps job_id (handler e)) →
  keeps job_id (try_except body handler).
Proof. intros Hm Hf. eapply hoare_try; eauto. Qed.

Lemma keeps_update p m : keeps job_id (update_sora_progress job_id p m).
Proof. apply hoare_update; intros; repeat split; auto. Qed.

Lemma keeps_poll_loop replies video_status video_data :
  keeps job_id
    (poll_loop (Some (λ p m, update_sora_progress job_id p m)) replies
       video_status video_data).
Proof.
  revert video_status video_data.
  induction replies as [| reply replies IH]; intros video_status video_data;
    cbn [poll_loop]; destruct (in_list video_status _).
  - apply keeps_suspend.
  - apply keeps_ret.
  - apply keeps_bind; [apply keeps_lift |]. intros vd.
    apply keeps_bind; [apply keeps_update |]. intros _. apply IH.
  - apply keeps_ret.
Qed.

Lemma keeps_generate_video_with_progress w script style duration image_urls :
  keeps job_id
    (generate_video_with_progress w script style duration
       (Some (λ p m, update_sora_progress job_id p m)) image_urls).
Proof.
  unfold generate_video_with_progress.
  apply keeps_try; [| intros e; apply keeps_raise].
  apply keeps_bind; [apply keeps_update |]. intros _.
  apply keeps_bind; [apply keeps_lift |]. intros create_response.
  apply keeps_bind.
  { destruct (negb _); [apply keeps_raise | apply keeps_lift]. }
  intros video_data.
  apply keeps_bind.
  { destruct (vd_id video_data); [apply keeps_ret | apply keeps_raise]. }
  intros video_id.
  apply keeps_bind; [apply keeps_update |]. intros _.
  apply keeps_bind; [apply keeps_poll_loop |]. intros [video_status video_data'].
  apply keeps_bind.
  { destruct (String.eqb video_status "failed"); [apply keeps_raise | apply keeps_ret]. }
  intros _.
  apply keeps_bind; [apply keeps_update |]. intros _.
  apply keeps_bind.
  { unfold _download_video_from_sora.
    destruct (download_reply w); [apply keeps_raise | apply keeps_ret]. }
  intros video_path.
  apply keeps_bind; [apply keeps_update |]. intros _.
  apply keeps_ret.
Qed.

Lemma keeps_process_video_generation_try w repo_url api_key style duration :
  keeps job_id (process_video_generation_try w job_id repo_url api_key style duration).
Proof.
  unfold process_video_generation_try.
  repeat first
    [ apply keeps_setattr
    | apply keeps_lift
    | apply keeps_generate_video_with_progress
    | apply keeps_bind; [| intros ?] ].
Qed.

End Keeps.

(** A statement that raises ends the block it starts. *)
Lemma bind_raised {A B} (m : M A) (f : A → M B) (video_jobs : Jobs) (e : Exception) :
  outcome (m video_jobs) = Raised e →
  (m ≫= f) video_jobs = MkRun (writes (m video_jobs)) (table (m video_jobs)) (Raised e).
Proof. intros H. unfold mbind, M_bind. rewrite H. reflexivity. Qed.

(** For a job identifier that is not a key of the table the task itself
    raises: the first assignment of the [try] block raises [KeyError], and so
    does the first assignment of the [except] block.  (The submission inserts
    the job before it schedules the task, and nothing deletes a job.) *)
Theorem process_video_generation_unknown_job (w : World) (job_id : string)
    (repo_url : Url) (api_key : string) (video_style : VideoStyle) (duration : Z)
    (video_jobs : Jobs) :
  video_jobs !! job_id = None →
  process_video_generation w job_id repo_url api_key video_style duration video_jobs
  = MkRun [] video_jobs (Raised (KeyError job_id)).
Proof.
  intros Hnone.
  assert (Hset : ∀ assign, setattr job_id assign video_jobs
                           = MkRun [] video_jobs (Raised (KeyError job_id))).
  { intros assign. unfold setattr. rewrite Hnone. reflexivity. }
  unfold process_video_generation, try_except, process_video_generation_try.
  rewrite (bind_raised _ _ _ (KeyError job_id)) by (rewrite Hset; reflexivity).
  rewrite Hset. cbn [outcome table writes].
  unfold process_video_generation_except.
  rewrite (bind_raised _ _ _ (KeyError job_id)) by (rewrite Hset; reflexivity).
  rewrite Hset. reflexivity.
Qed.

Lemma process_video_generation_unknown_job_witness :
  process_video_generation refusing_world "job-7" (repo_url hello_world_request)
    "sk-0123456789abcdefghij" TECH 8 ∅
  = MkRun [] ∅ (Raised (KeyError "job-7")).
Proof.
  apply (process_video_generation_unknown_job refusing_world "job-7"
           (repo_url hello_world_request) "sk-0123456789abcdefghij" TECH 8 ∅).
  apply lookup_empty.
Defined.

(** The [except] block on a table that holds the job: three assignments,
    a normal return, and the job Failed with progress 0. *)
Lemma except_block_run (job_id : string) (e : Exception) (video_jobs : Jobs)
    (k : VideoStatusResponse) :
  video_jobs !! job_id = Some k →
  let r := process_video_generation_except job_id e video_jobs in
  outcome r = Returned tt ∧
  job_history job_id (writes r)
  = [set_status FAILED k;
     set_message ("Error: " +:+ str e) (set_status FAILED k);
     set_progress 0 (set_message ("Error: " +:+ str e) (set_status FAILED k))] ∧
  table r !! job_id
  = Some (set_progress 0 (set_message ("Error: " +:+ str e) (set_status FAILED k))).
Proof.
  intros Hk.
  unfold process_video_generation_except, mbind, M_bind, setattr.
  rewrite Hk. cbn [outcome table writes].
  rewrite lookup_insert_eq. cbn [outcome table writes].
  rewrite lookup_insert_eq. cbn [outcome table writes app].
  unfold job_history. cbn [omap list_omap].
  rewrite !lookup_insert_eq. cbn. auto.
Qed.

(** C8: when the pipeline's [try] block raises, for a job that is in the
    table, the task itself returns normally and leaves the job Failed with
    progress 0 and the message "Error: " followed by the text of the
    error. *)
Theorem pipeline_error_marks_job_failed (w : World) (job_id : string) (repo_url : Url)
    (api_key : string) (video_style : VideoStyle) (duration : Z)
    (video_jobs : Jobs) (e : Exception) :
  is_Some (video_jobs !! job_id) →
  outcome (process_video_generation_try w job_id repo_url api_key video_style duration
             video_jobs) = Raised e →
  outcome (process_video_generation w job_id repo_url api_key video_style duration
             video_jobs) = Returned tt ∧
  ∃ job, table (process_video_generation w job_id repo_url api_key video_style duration
                  video_jobs) !! job_id = Some job ∧
         status job = FAILED ∧ progress job = 0 ∧ message job = "Error: " +:+ str e.
Proof.
  intros [j Hj] Hraised.
  destruct (keeps_process_video_generation_try job_id w repo_url api_key video_style
              duration video_jobs j Hj I) as (k & _ & Hk & _).
  destruct (except_block_run job_id e _ k Hk) as (Ho & _ & Ht).
  unfold process_video_generation, try_except. rewrite Hraised.
  cbn [outcome table].
  split; [exact Ho |]. eexists. split; [exact Ht |]. cbn. auto.
Qed.

Lemma pipeline_error_marks_job_failed_witness :
  let video_jobs : Jobs := (generate_video "job-1" hello_world_request ∅).1.1 in
  let r := process_video_generation refusing_world "job-1" (repo_url hello_world_request)
             "sk-0123456789abcdefghij" TECH 8 video_jobs in
  outcome r = Returned tt ∧
  ∃ job, table r !! "job-1" = Some job ∧ status job = FAILED ∧ progress job = 0 ∧
         message job
         = "Error: " +:+ str (Exception_
             "Video generation failed: Sora API returned 401: invalid api key").
Proof.
  apply (pipeline_error_marks_job_failed refusing_world "job-1"
           (repo_url hello_world_request) "sk-0123456789abcdefghij" TECH 8
           (generate_video "job-1" hello_world_request ∅).1.1).
  - eexists. vm_compute. reflexivity.
  - vm_compute. reflexivity.
Defined.

(** ** URLs with fewer than two path segments *)

(** C2 fails at https://github.com/octocat: the path has one segment, and
    the endpoint answers with a job identifier, records the job and
    schedules the pipeline. *)
Lemma one_segment_url_is_accepted :
  length (path_parts (repo_url one_segment_request)) = 1%nat ∧
  (∃ video_jobs task response,
     post_generate "job-1" one_segment_request ∅ = inr (video_jobs, [task], response) ∧
     is_Some (video_jobs !! "job-1")) ∧
  ¬ malformed_urls_are_rejected.
Proof.
  split; [vm_compute; reflexivity |]. split.
  - do 3 eexists. split; [reflexivity |].
    eexists. apply lookup_insert_eq.
  - intros H.
    destruct (H "job-1" one_segment_request ∅) as [e He].
    + vm_compute. lia.
    + unfold post_generate in He.
      change (valid_request one_segment_request) with true in He. discriminate.
Qed.

(** The [try] block up to the URL parse, when the parse raises. *)
Lemma try_block_parse_error (w : World) (job_id : string) (repo_url : Url)
    (api_key : string) (style : VideoStyle) (duration : Z) (video_jobs : Jobs)
    (j : VideoStatusResponse) :
  video_jobs !! job_id = Some j →
  (length (path_parts repo_url) < 2)%nat →
  let r := process_video_generation_try w job_id repo_url api_key style duration
             video_jobs in
  outcome r = Raised (ValueError "Invalid GitHub URL format") ∧
  table r !! job_id
  = Some (set_progress 5 (set_message "Analyzing repository..." (set_status PROCESSING j))).
Proof.
  intros Hj Hlen.
  assert (Hparse : ingest_repository w repo_url
                   = inl (ValueError "Invalid GitHub URL format")).
  { unfold ingest_repository, _parse_github_url. fold (path_parts repo_url).
    destruct (Nat.ltb_spec (length (path_parts repo_url)) 2); [reflexivity | lia]. }
  assert (H : hoare job_id any_step (λ k, k = j)
                (process_video_generation_try w job_id repo_url api_key style duration)
                (λ o k, o = Raised (ValueError "Invalid GitHub URL format") ∧
                        k = set_progress 5
                              (set_message "Analyzing repository..."
                                 (set_status PROCESSING j)))).
  { unfold process_video_generation_try.
    eapply hoare_setattr_then with (P' := λ k, k = set_status PROCESSING j).
    { intros k ->. split; [exact I | reflexivity]. }
    eapply hoare_setattr_then with
      (P' := λ k, k = set_message "Analyzing repository..." (set_status PROCESSING j)).
    { intros k ->. split; [exact I | reflexivity]. }
    eapply hoare_setattr_then with
      (P' := λ k, k = set_progress 5
                        (set_message "Analyzing repository..." (set_status PROCESSING j))).
    { intros k ->. split; [exact I | reflexivity]. }
    rewrite Hparse. cbn [lift].
    eapply hoare_bind with
      (R := λ o k, o = Raised (ValueError "Invalid GitHub URL format") ∧
                   k = set_progress 5
                         (set_message "Analyzing repository..." (set_status PROCESSING j))).
    - apply hoare_raise. intros k ->. auto.
    - intros a s k Hs [Hfalse _]. discriminate.
    - intros e k [[= <-] ->]. auto.
    - intros k [Hfalse _]. discriminate. }
  destruct (H video_jobs j Hj eq_refl) as (k & _ & Ht & Ho & ->).
  cbv zeta. auto.
Qed.

(** C2, amended: a body that violates a field constraint is refused with
    422.  A body that satisfies them, with a URL path of fewer than two
    segments, is accepted: the job is recorded Pending and one task is
    scheduled; that task, whatever the providers answer, returns normally and
    leaves the job Failed with progress 0 and the message
    "Error: Invalid GitHub URL format". *)
Theorem malformed_url_fails_in_pipeline (w : World) (uuid4 : string)
    (body : VideoGenerationRequest) (video_jobs : Jobs) :
  (valid_request body = false →
     ∃ e, post_generate uuid4 body video_jobs = inl e ∧ http_status e = 422) ∧
  (valid_request body = true →
   (length (path_parts (repo_url body)) < 2)%nat →
   ∃ video_jobs' task response,
     post_generate uuid4 body video_jobs = inr (video_jobs', [task], response) ∧
     vgr_job_id response = uuid4 ∧
     (∃ job, video_jobs' !! uuid4 = Some job ∧ status job = PENDING ∧ progress job = 0) ∧
     outcome (run_task w task video_jobs') = Returned tt ∧
     ∃ job, table (run_task w task video_jobs') !! uuid4 = Some job ∧
            status job = FAILED ∧ progress job = 0 ∧
            message job = "Error: Invalid GitHub URL format").
Proof.
  split.
  - intros Hinv. unfold post_generate. rewrite Hinv. eauto.
  - intros Hvalid Hlen. unfold post_generate. rewrite Hvalid. unfold generate_video.
    do 3 eexists. split; [reflexivity |]. split; [reflexivity |].
    split; [eexists; split; [apply lookup_insert_eq | auto] |].
    unfold run_task. cbn [task_job_id task_repo_url task_api_key task_video_style task_duration].
    match goal with |- context [process_video_generation w uuid4 ?u ?k ?s ?d ?t] =>
      destruct (try_block_parse_error w uuid4 u k s d t _ (lookup_insert_eq _ _ _) Hlen)
        as [Ho Ht];
      destruct (except_block_run uuid4 (ValueError "Invalid GitHub URL format") _ _ Ht)
        as (Ho' & _ & Ht')
    end.
    unfold process_video_generation, try_except. rewrite Ho.
    cbn [outcome table].
    split; [exact Ho' |]. eexists. split; [exact Ht' |]. cbn. auto.
Qed.

Lemma malformed_url_fails_in_pipeline_witness :
  ∃ video_jobs' task response,
    post_generate "job-1" one_segment_request ∅ = inr (video_jobs', [task], response) ∧
    vgr_job_id response = "job-1" ∧
    (∃ job, video_jobs' !! "job-1" = Some job ∧ status job = PENDING ∧ progress job = 0) ∧
    outcome (run_task refusing_world task video_jobs') = Returned tt ∧
    ∃ job, table (run_task refusing_world task video_jobs') !! "job-1" = Some job ∧
           status job = FAILED ∧ progress job = 0 ∧
           message job = "Error: Invalid GitHub URL format".
Proof.
  apply (proj2 (malformed_url_fails_in_pipeline refusing_world "job-1"
                  one_segment_request ∅)).
  - reflexivity.
  - vm_compute. lia.
Defined.

(** ** Progress while the job is Processing *)

Section Mono.
Context (job_id : string).

Lemma mono_ret {A} (a : A) lo hi : lo ≤ hi → mono job_id lo hi (mret a).
Proof. intros H. apply hoare_ret. intros j [? ?]. split; [auto | intros; lia]. Qed.

Lemma mono_raise {A} (e : Exception) lo hi : mono job_id lo hi (raise e : M A).
Proof. apply hoare_raise. intros j [? ?]. split; [auto | intros; discriminate]. Qed.


Lemma mono_lift {A} (r : Exception + A) lo hi : lo ≤ hi → mono job_id lo hi (lift r).
Proof.
  intros H. destruct r; cbn; [apply mono_raise | now apply mono_ret].
Qed.









End Mono.

Section Pipeline.
Context (job_id : string).










End Pipeline.



(** ** How the [try] block leaves the job, whatever the providers answer *)

Section Processing.
Context (job_id : string).

(** A fact that does not depend on the job can be taken out of the
    precondition. *)
Lemma hoare_pure {A} step (P : VideoStatusResponse → Prop) (F : Prop) (m : M A) Q :
  (F → hoare job_id step P m Q) → hoare job_id step (λ j, P j ∧ F) m Q.
Proof. intros H s j Hs [Hp Hf]. exact (H Hf s j Hs Hp). Qed.

Lemma processing_setattr_then {B} assign (rest : M B) Q :
  (∀ j, processing j → processing (assign j)) →
  hoare job_id any_step processing rest Q →
  hoare job_id any_step processing (setattr job_id assign;; rest) Q.
Proof.
  intros Hassign Hrest. eapply hoare_setattr_then; [| exact Hrest].
  intros j Hj. split; [exact I | auto].
Qed.

Lemma processing_update_then {B} (p : Z) (m : string) (rest : M B) Q :
  (∀ e j, processing j → Q (Raised e) j) →
  hoare job_id any_step processing rest Q →
  hoare job_id any_step processing (update_sora_progress job_id p m;; rest) Q.
Proof.
  intros Hraise Hrest.
  eapply hoare_bind with
    (R := λ o j, match o with Suspended => False | _ => processing j end).
  - apply hoare_update.
    + intros e _ j Hj. exact Hj.
    + intros v _ j Hj. repeat split. exact Hj.
  - intros _. exact Hrest.
  - intros e j Hj. auto.
  - intros j [].
Qed.

Lemma processing_poll_loop replies : ∀ video_status video_data,
  hoare job_id any_step processing
    (poll_loop (Some (λ p m, update_sora_progress job_id p m)) replies
       video_status video_data)
    (λ _ j, processing j).
Proof.
  induction replies as [| reply replies IH]; intros video_status video_data;
    cbn [poll_loop]; destruct (in_list video_status _).
  - apply hoare_suspend. auto.
  - apply hoare_ret. auto.
  - apply hoare_bind_lift; [auto |]. intros vd _. cbv zeta. cbn [call_back].
    apply processing_update_then; [auto | apply IH].
  - apply hoare_ret. auto.
Qed.



End Processing.




(** ** What the pipeline of one job may touch *)

Section Frame.
Context (job_id : string).

Lemma same_but_refl (s : Jobs) : same_but job_id s s.
Proof. split; intros; reflexivity. Qed.

Lemma same_but_trans (s t u : Jobs) :
  same_but job_id s t → same_but job_id t u → same_but job_id s u.
Proof.
  intros [H1 H2] [H3 H4]. split.
  - intros k Hk. rewrite (H3 k Hk). exact (H1 k Hk).
  - intros k. rewrite (H4 k). exact (H2 k).
Qed.

Lemma same_but_insert (s : Jobs) (j v : VideoStatusResponse) :
  s !! job_id = Some j → same_but job_id s (<[job_id := v]> s).
Proof.
  intros Hj. split.
  - intros k Hk. apply lookup_insert_ne. congruence.
  - intros k. destruct (decide (k = job_id)) as [-> | Hk].
    + rewrite lookup_insert_eq, Hj. split; eauto.
    + rewrite lookup_insert_ne by congruence. reflexivity.
Qed.

Lemma Forall_same_but_trans (s t : Jobs) (ws : list Jobs) :
  same_but job_id s t → Forall (same_but job_id t) ws → Forall (same_but job_id s) ws.
Proof.
  intros Hst. apply List.Forall_impl. intros u. now apply same_but_trans.
Qed.

Lemma setattr_same_but assign (s : Jobs) :
  same_but job_id s (table (setattr job_id assign s)) ∧
  Forall (same_but job_id s) (writes (setattr job_id assign s)).
Proof.
  unfold setattr. destruct (s !! job_id) as [j |] eqn:Hj; cbn.
  - split; [| constructor; [| constructor]]; eapply same_but_insert; eauto.
  - split; [apply same_but_refl | constructor].
Qed.

(** One run of the progress callback on a table that holds the job. *)
Lemma update_sora_progress_run (p : Z) (m : string) (s : Jobs) (j : VideoStatusResponse) :
  s !! job_id = Some j →
  update_sora_progress job_id p m s
  = match displayed_progress p with
    | inl e => MkRun [] s (Raised e)
    | inr v =>
        MkRun [<[job_id := set_progress v j]> s;
               <[job_id := set_message m (set_progress v j)]>
                 (<[job_id := set_progress v j]> s)]
              (<[job_id := set_message m (set_progress v j)]>
                 (<[job_id := set_progress v j]> s))
              (Returned tt)
    end.
Proof.
  intros Hj. unfold update_sora_progress.
  rewrite bool_decide_eq_true_2 by (rewrite Hj; eauto).
  destruct (displayed_progress p) as [e | v]; [reflexivity |].
  unfold lift, mbind, M_bind, mret, M_ret, setattr. cbn.
  rewrite Hj. cbn. rewrite lookup_insert_eq. reflexivity.
Qed.

Lemma update_same_but (p : Z) (m : string) (s : Jobs) :
  same_but job_id s (table (update_sora_progress job_id p m s)) ∧
  Forall (same_but job_id s) (writes (update_sora_progress job_id p m s)).
Proof.
  destruct (s !! job_id) as [j |] eqn:Hj.
  - rewrite (update_sora_progress_run p m s j Hj).
    assert (H1 : same_but job_id s (<[job_id := set_progress
                   (match displayed_progress p with inr v => v | inl _ => 0 end) j]> s))
      by (eapply same_but_insert; eauto).
    destruct (displayed_progress p) as [e | v]; cbn.
    + split; [apply same_but_refl | constructor].
    + assert (H2 : same_but job_id s
                     (<[job_id := set_message m (set_progress v j)]>
                        (<[job_id := set_progress v j]> s))).
      { eapply same_but_trans; [exact H1 |].
        eapply same_but_insert. apply lookup_insert_eq. }
      split; [exact H2 |]. constructor; [exact H1 |]. constructor; [exact H2 | constructor].
  - unfold update_sora_progress.
    rewrite bool_decide_eq_false_2 by (rewrite Hj; intros [x Hx]; discriminate).
    split; [apply same_but_refl | constructor].
Qed.

(** Every run built from the statements of the pipeline keeps the job
    identifiers of the table and the records of the other jobs, in every
    table it writes and in the table it ends with. *)
Lemma Built_same_but (A : Type) (m : M A) :
  Built job_id A m →
  ∀ s : Jobs, same_but job_id s (table (m s)) ∧ Forall (same_but job_id s) (writes (m s)).
Proof.
  induction 1 as [A a | A e | A | assign | p msg | A B m f Hm IHm Hf IHf
                  | A body handler Hb IHb Hh IHh]; intros s.
  - split; [apply same_but_refl | constructor].
  - split; [apply same_but_refl | constructor].
  - split; [apply same_but_refl | constructor].
  - apply setattr_same_but.
  - apply update_same_but.
  - destruct (IHm s) as [Ht Hw]. unfold mbind, M_bind.
    destruct (outcome (m s)) as [a | e |]; cbn; [| auto | auto].
    destruct (IHf a (table (m s))) as [Ht' Hw'].
    split; [eapply same_but_trans; eauto |].
    apply Forall_app. split; [exact Hw |]. eapply Forall_same_but_trans; eauto.
  - destruct (IHb s) as [Ht Hw]. unfold try_except.
    destruct (outcome (body s)) as [a | e |]; cbn; [auto | | auto].
    destruct (IHh e (table (body s))) as [Ht' Hw'].
    split; [eapply same_but_trans; eauto |].
    apply Forall_app. split; [exact Hw |]. eapply Forall_same_but_trans; eauto.
Qed.

Lemma Built_lift (A : Type) (r : Exception + A) : Built job_id A (lift r).
Proof. destruct r; constructor. Qed.

Lemma Built_poll_loop replies : ∀ video_status video_data,
  Built job_id _
    (poll_loop (Some (λ p m, update_sora_progress job_id p m)) replies
       video_status video_data).
Proof.
  induction replies as [| reply replies IH]; intros video_status video_data;
    cbn [poll_loop]; destruct (in_list video_status _); try constructor.
  - apply Built_lift.
  - intros vd. constructor; [constructor | intros _; apply IH].
Qed.

Lemma Built_generate_video_with_progress w script style duration image_urls :
  Built job_id _
    (generate_video_with_progress w script style duration
       (Some (λ p m, update_sora_progress job_id p m)) image_urls).
Proof.
  unfold generate_video_with_progress.
  constructor; [| intros e; constructor].
  constructor; [constructor |]. intros _.
  constructor; [apply Built_lift |]. intros create_response.
  constructor; [destruct (negb _); [constructor | apply Built_lift] |]. intros video_data.
  constructor; [destruct (vd_id video_data); constructor |]. intros video_id.
  constructor; [constructor |]. intros _.
  constructor; [apply Built_poll_loop |]. intros [video_status video_data'].
  constructor; [destruct (String.eqb video_status "failed"); constructor |]. intros _.
  constructor; [constructor |]. intros _.
  constructor.
  { unfold _download_video_from_sora. destruct (download_reply w); constructor. }
  intros video_path. constructor; [constructor |]. intros _. constructor.
Qed.

Lemma Built_process_video_generation w repo_url api_key style duration :
  Built job_id _ (process_video_generation w job_id repo_url api_key style duration).
Proof.
  unfold process_video_generation, process_video_generation_try,
    process_video_generation_except.
  constructor.
  - repeat first
      [ apply Built_setattr
      | apply Built_lift
      | apply Built_generate_video_with_progress
      | apply Built_bind; [| intros ?] ].
  - intros e. repeat first [ apply Built_setattr | apply Built_bind; [| intros ?] ].
Qed.

End Frame.

Lemma process_video_generation_same_but (w : World) (job_id : string) (repo_url : Url)
    (api_key : string) (video_style : VideoStyle) (duration : Z) (video_jobs : Jobs) :
  same_but job_id video_jobs
    (table (process_video_generation w job_id repo_url api_key video_style duration
              video_jobs)) ∧
  Forall (same_but job_id video_jobs)
    (writes (process_video_generation w job_id repo_url api_key video_style duration
               video_jobs)).
Proof.
  apply Built_same_but. apply Built_process_video_generation.
Qed.

(** The background task of one job never adds or removes a job and never
    changes the record of another job: every table a status reader can see
    during the run, and the table at the end, hold the same identifiers as
    the table at the start and the same records under the other
    identifiers. *)
Theorem pipeline_touches_only_its_job (w : World) (job_id : string) (repo_url : Url)
    (api_key : string) (video_style : VideoStyle) (duration : Z) (video_jobs : Jobs) :
  same_but job_id video_jobs
    (table (process_video_generation w job_id repo_url api_key video_style duration
              video_jobs)) ∧
  Forall (same_but job_id video_jobs)
    (writes (process_video_generation w job_id repo_url api_key video_style duration
               video_jobs)).
Proof. apply process_video_generation_same_but. Qed.


(** ** The states a run of the task can end in *)

Section Terminal.
Context (job_id : string).

Lemma hoare_generate_video_with_progress w script style duration image_urls :
  hoare job_id any_step processing
    (generate_video_with_progress w script style duration
       (Some (λ p m, update_sora_progress job_id p m)) image_urls)
    (video_stage_post w script style duration).
Proof.
  unfold generate_video_with_progress.
  eapply hoare_try with
    (R := λ o j, processing j ∧
                 match o with
                 | Returned video_path =>
                     ∃ video_id, video_delivered w script style duration video_id ∧
                                 video_path = stored_path video_id
                 | _ => True
                 end).
  - cbn [call_back].
    apply processing_update_then; [auto |].
    apply hoare_bind_lift; [auto |]. intros create_response Hcreate.
    destruct (status_code create_response =? 200) eqn:Hcode; cbn [negb];
      [| apply hoare_bind_raise; auto].
    apply Z.eqb_eq in Hcode.
    apply hoare_bind_lift; [auto |]. intros video_data Hjson.
    destruct (vd_id video_data) as [video_id |] eqn:Hid;
      [apply hoare_bind_ret | apply hoare_bind_raise; auto].
    cbv zeta.
    apply processing_update_then; [auto |].
    eapply hoare_bind with (R := λ _ j, processing j);
      [apply processing_poll_loop | | auto | auto].
    intros [video_status video_data'].
    destruct (String.eqb video_status "failed");
      [apply hoare_bind_raise; auto | apply hoare_bind_ret].
    apply processing_update_then; [auto |].
    unfold _download_video_from_sora.
    destruct (download_reply w) as [e |] eqn:Hdownload;
      [apply hoare_bind_raise; auto | apply hoare_bind_ret].
    apply processing_update_then; [auto |].
    apply hoare_ret. intros j Hj. split; [exact Hj |].
    exists video_id. split; [| reflexivity].
    exists create_response, video_data. auto.
  - intros e. apply hoare_raise. intros j [Hj _]. split; [exact Hj | eauto].
  - intros a j H. exact H.
  - intros j H. exact H.
Qed.

Lemma hoare_try_block w repo_url api_key style duration :
  hoare job_id any_step (λ _, True)
    (process_video_generation_try w job_id repo_url api_key style duration)
    (λ o j, match o with
            | Returned _ => completed_with w job_id style duration j
            | Raised _ | Suspended => processing j
            end).
Proof.
  unfold process_video_generation_try.
  eapply hoare_setattr_then with (P' := processing).
  { intros j _. split; [exact I | reflexivity]. }
  do 2 (apply processing_setattr_then; [auto |]).
  apply hoare_bind_lift; [auto |]. intros repo_data _.
  do 4 (apply processing_setattr_then; [auto |]).
  apply hoare_bind_lift; [auto |]. intros script Hscript.
  unfold generate_script in Hscript.
  do 4 (apply processing_setattr_then; [auto |]).
  eapply hoare_bind;
    [apply hoare_generate_video_with_progress | | intros e j [Hj _]; exact Hj
     | intros j [Hj _]; exact Hj].
  intros video_path. cbn beta iota.
  apply hoare_pure. intros (video_id & Hdelivered & ->).
  eapply hoare_setattr_then with (P' := λ j, status j = COMPLETED).
  { intros j _. split; [exact I | reflexivity]. }
  eapply hoare_setattr_then with
    (P' := λ j, status j = COMPLETED ∧ message j = "Video generated successfully!").
  { intros j Hj. split; [exact I | split; [exact Hj | reflexivity]]. }
  eapply hoare_setattr_then with
    (P' := λ j, status j = COMPLETED ∧ message j = "Video generated successfully!" ∧
                progress j = 100).
  { intros j [Hs Hm]. split; [exact I | repeat split; assumption]. }
  eapply hoare_setattr_then with
    (P' := λ j, status j = COMPLETED ∧ message j = "Video generated successfully!" ∧
                progress j = 100 ∧ video_path j = Some (stored_path video_id)).
  { intros j (Hs & Hm & Hp). split; [exact I | repeat split; assumption]. }
  apply hoare_setattr. intros j (Hs & Hm & Hp & Hv). split; [exact I |].
  unfold completed_with. cbn. repeat split; try assumption.
  exists script, video_id. auto.
Qed.

End Terminal.

(** How the run of the task of a job that is in the table ends. *)
Lemma run_ends (w : World) (job_id : string) (repo_url : Url)
    (api_key : string) (video_style : VideoStyle) (duration : Z)
    (video_jobs : Jobs) :
  is_Some (video_jobs !! job_id) →
  ∃ job, table (process_video_generation w job_id repo_url api_key video_style duration
                  video_jobs) !! job_id = Some job ∧
    match outcome (process_video_generation w job_id repo_url api_key video_style
                     duration video_jobs) with
    | Returned _ => completed_with w job_id video_style duration job ∨ failed_with_error job
    | Suspended => status job = PROCESSING
    | Raised _ => False
    end.
Proof.
  intros [j Hj].
  destruct (hoare_try_block job_id w repo_url api_key video_style duration
              video_jobs j Hj I) as (k & _ & Hk & Hpost).
  unfold process_video_generation, try_except.
  destruct (outcome (process_video_generation_try w job_id repo_url api_key video_style
                       duration video_jobs)) as [[] | e |] eqn:Ho.
  - exists k. rewrite Ho. auto.
  - destruct (except_block_run job_id e _ k Hk) as (Ho' & _ & Ht').
    cbn [outcome table]. rewrite Ho'. eexists. split; [exact Ht' |].
    right. unfold failed_with_error. cbn. eauto.
  - exists k. rewrite Ho. auto.
Qed.

(** The task of a job that is in the table never raises.  When it returns,
    the job is either Completed at 100, with the URL of the download endpoint
    and the file stored for the video the provider delivered, or Failed at 0
    with a message that starts with "Error: ".  When it is still waiting for
    the provider, the job is Processing. *)
Theorem pipeline_terminal_states (w : World) (job_id : string) (repo_url : Url)
    (api_key : string) (video_style : VideoStyle) (duration : Z)
    (video_jobs : Jobs) :
  is_Some (video_jobs !! job_id) →
  ∃ job, table (process_video_generation w job_id repo_url api_key video_style duration
                  video_jobs) !! job_id = Some job ∧
    match outcome (process_video_generation w job_id repo_url api_key video_style
                     duration video_jobs) with
    | Returned _ => completed_with w job_id video_style duration job ∨ failed_with_error job
    | Suspended => status job = PROCESSING
    | Raised _ => False
    end.
Proof. apply run_ends. Qed.

Lemma pipeline_terminal_states_witness :
  ∃ job, table (process_video_generation usual_world "job-1"
                  (repo_url hello_world_request) "sk-0123456789abcdefghij" TECH 8
                  {[ "job-1" := queued_job ]}) !! "job-1" = Some job ∧
         (completed_with usual_world "job-1" TECH 8 job ∨ failed_with_error job).
Proof.
  pose proof (pipeline_terminal_states usual_world "job-1" (repo_url hello_world_request)
                "sk-0123456789abcdefghij" TECH 8 {[ "job-1" := queued_job ]}) as H.
  destruct H as (job & Ht & Hend).
  - eexists. apply lookup_singleton_eq.
  - exists job. split; [exact Ht |].
    change (outcome (process_video_generation usual_world "job-1"
                       (repo_url hello_world_request) "sk-0123456789abcdefghij" TECH 8
                       {[ "job-1" := queued_job ]})) with (Returned tt) in Hend.
    exact Hend.
Defined.



(** For an identifier that does not begin with a slash the file is stored
    under the output directory. *)
Lemma stored_path_relative (video_id : string) :
  String.prefix "/" video_id = false →
  stored_path video_id = "generated_videos/" +:+ video_id +:+ ".mp4".
Proof.
  intros H. unfold stored_path, PyOs.path_join.
  destruct video_id as [| c r]; [reflexivity |].
  change (String c r +:+ ".mp4") with (String c (r +:+ ".mp4")).
  cbn [String.prefix] in *. destruct (ascii_dec "/" c); [| reflexivity].
  destruct r; discriminate.
Qed.

(** For an identifier that begins with a slash the output directory is
    dropped. *)
Lemma stored_path_absolute (video_id : string) :
  stored_path ("/" +:+ video_id) = "/" +:+ video_id +:+ ".mp4".
Proof. unfold stored_path, PyOs.path_join. destruct video_id; reflexivity. Qed.



(** Whatever the callback and the providers do, an exception that leaves
    [generate_video_with_progress] is an [Exception] whose text starts with
    "Video generation failed: ". *)
Theorem video_stage_errors_are_wrapped (w : World) (script : string)
    (style : VideoStyle) (duration : Z)
    (progress_callback : option (Z → string → M unit)) (image_urls : list string)
    (video_jobs : Jobs) (e : Exception) :
  outcome (generate_video_with_progress w script style duration progress_callback
             image_urls video_jobs) = Raised e →
  ∃ msg, e = Exception_ ("Video generation failed: " +:+ msg).
Proof.
  unfold generate_video_with_progress, try_except.
  match goal with |- context [outcome (?body video_jobs)] =>
    destruct (outcome (body video_jobs)) as [a | e' |] eqn:Ho
  end.
  - rewrite Ho. discriminate.
  - cbn. intros [= <-]. eauto.
  - rewrite Ho. discriminate.
Qed.

Lemma video_stage_errors_are_wrapped_witness :
  ∃ msg, Exception_ "Video generation failed: Sora API returned 401: invalid api key"
         = Exception_ ("Video generation failed: " +:+ msg).
Proof.
  apply (video_stage_errors_are_wrapped refusing_world "A script" TECH 8 None [] ∅).
  vm_compute. reflexivity.
Defined.

(** ** What decides how a run ends *)

Section Outcomes.
Context (job_id : string).

Lemma hoare_false {A} step (P : VideoStatusResponse → Prop) (m : M A) Q :
  (∀ j, P j → False) → hoare job_id step P m Q.
Proof. intros H s j _ Hj. destruct (H j Hj). Qed.

(** The callback on provider progress in 0..100 returns. *)
Lemma processing_update_then_ok {B} (p : Z) (m : string) (rest : M B) Q :
  0 ≤ p ≤ 100 →
  hoare job_id any_step processing rest Q →
  hoare job_id any_step processing (update_sora_progress job_id p m;; rest) Q.
Proof.
  intros Hp Hrest.
  eapply hoare_bind with
    (R := λ o j, match o with Returned _ => processing j | _ => False end).
  - apply hoare_update.
    + intros e He. rewrite displayed_progress_exact in He by exact Hp. discriminate.
    + intros v _ j Hj. repeat split. exact Hj.
  - intros _. exact Hrest.
  - intros e j [].
  - intros j [].
Qed.

(** The poll loop passes over replies that keep it going. *)
Lemma poll_loop_running_prefix pre : ∀ rest video_status video_data Q,
  Forall running_reply pre →
  still_running video_status = true →
  (∀ video_status' video_data',
     still_running video_status' = true →
     hoare job_id any_step processing
       (poll_loop (Some (λ p m, update_sora_progress job_id p m)) rest
          video_status' video_data') Q) →
  hoare job_id any_step processing
    (poll_loop (Some (λ p m, update_sora_progress job_id p m)) (pre ++ rest)
       video_status video_data) Q.
Proof.
  induction pre as [| reply pre IH]; intros rest video_status video_data Q Hpre Hrun Hrest.
  - apply Hrest. exact Hrun.
  - apply Forall_cons in Hpre. destruct Hpre as [(vd & -> & Hst & Hp) Hpre].
    cbn [app poll_loop]. unfold still_running in Hrun. rewrite Hrun.
    cbn [lift]. apply hoare_bind_ret. cbv zeta. cbn [call_back].
    apply processing_update_then_ok; [exact Hp |].
    apply IH; assumption.
Qed.

(** The [try] block up to the video stage, for a URL that parses and a
    script request that is answered. *)
Lemma try_block_to_video_stage w repo_url api_key style duration script Q :
  script_written w repo_url script →
  (∀ image_urls,
     hoare job_id any_step processing
       (video_stage_and_after job_id w script style duration image_urls) Q) →
  hoare job_id any_step (λ _, True)
    (process_video_generation_try w job_id repo_url api_key style duration) Q.
Proof.
  intros [(owner & repo & Hparse) Hscript] Hstage.
  unfold process_video_generation_try.
  eapply hoare_setattr_then with (P' := processing).
  { intros j _. split; [exact I | reflexivity]. }
  do 2 (apply processing_setattr_then; [auto |]).
  apply hoare_bind_lift.
  { intros e He. unfold ingest_repository in He. rewrite Hparse in He. discriminate. }
  intros repo_data _.
  do 4 (apply processing_setattr_then; [auto |]).
  apply hoare_bind_lift.
  { intros e He. unfold generate_script in He. congruence. }
  intros script' Hscript'. unfold generate_script in Hscript'.
  assert (script' = script) as -> by congruence.
  do 4 (apply processing_setattr_then; [auto |]).
  exact (Hstage (image_urls repo_data)).
Qed.

(** The video stage up to the poll loop, for a creation request that the
    provider accepts. *)
Lemma video_stage_to_polling w script style duration image_urls video_id video_data
    (R : Outcome string → VideoStatusResponse → Prop) Q :
  video_created w script style duration video_id video_data →
  hoare job_id any_step processing
    (polling_stage job_id w video_id (default "queued" (vd_status video_data))
       video_data) R →
  (∀ video_path j, R (Returned video_path) j → Q (Returned video_path) j) →
  (∀ e j, R (Raised e) j →
          Q (Raised (Exception_ ("Video generation failed: " +:+ str e))) j) →
  (∀ j, R Suspended j → Q Suspended j) →
  hoare job_id any_step processing
    (generate_video_with_progress w script style duration
       (Some (λ p m, update_sora_progress job_id p m)) image_urls) Q.
Proof.
  intros (create_response & Hcreate & Hcode & Hjson & Hid) Hpoll Hret Hraise Hsus.
  unfold generate_video_with_progress.
  eapply hoare_try with (R := R); [| | exact Hret | exact Hsus].
  - cbn [call_back].
    apply processing_update_then_ok; [lia |].
    apply hoare_bind_lift.
    { intros e He. unfold sora_form in Hcreate. congruence. }
    intros create_response' Hcreate'. unfold sora_form in Hcreate.
    assert (create_response' = create_response) as -> by congruence.
    rewrite Hcode. cbn [Z.eqb Pos.eqb negb].
    apply hoare_bind_lift; [intros e He; congruence |].
    intros video_data' Hjson'.
    assert (video_data' = video_data) as -> by congruence.
    rewrite Hid. apply hoare_bind_ret. cbv zeta.
    apply processing_update_then_ok; [lia |].
    exact Hpoll.
  - intros e. apply hoare_raise. intros j Hj. auto.
Qed.

End Outcomes.

Lemma poll_loop_stops progress_callback replies video_status video_data :
  still_running video_status = false →
  poll_loop progress_callback replies video_status video_data
  = mret (video_status, video_data).
Proof.
  intros H. unfold still_running in H.
  destruct replies; cbn [poll_loop]; rewrite H; reflexivity.
Qed.

(** The polling stage when every reply keeps the loop going. *)
Lemma polling_stage_waits job_id w video_id video_status video_data :
  still_running video_status = true →
  Forall running_reply (polls w) →
  hoare job_id any_step processing
    (polling_stage job_id w video_id video_status video_data)
    (λ o j, processing j ∧ o = Suspended).
Proof.
  intros Hrun Hall. unfold polling_stage.
  eapply hoare_bind with (R := λ o j, processing j ∧ o = Suspended).
  - rewrite <- (app_nil_r (polls w)).
    apply poll_loop_running_prefix; [exact Hall | exact Hrun |].
    intros st vd Hst. cbn [poll_loop]. unfold still_running in Hst. rewrite Hst.
    apply hoare_suspend. auto.
  - intros a. apply hoare_false. intros j [_ H]. discriminate.
  - intros e j [_ H]. discriminate.
  - intros j [H _]. split; [exact H | reflexivity].
Qed.

(** The polling stage when the first reply that stops the loop says
    "failed". *)
Lemma polling_stage_failed job_id w video_id video_status video_data pre failed rest :
  still_running video_status = true →
  polls w = pre ++ inr failed :: rest →
  Forall running_reply pre →
  vd_status failed = Some "failed" →
  0 ≤ default 0 (vd_progress failed) ≤ 100 →
  hoare job_id any_step processing
    (polling_stage job_id w video_id video_status video_data)
    (λ o j, processing j ∧
            o = Raised (Exception_ ("Video generation failed in Sora: "
                                    +:+ default "Unknown error" (vd_error failed)))).
Proof.
  intros Hrun Hpolls Hpre Hstatus Hp. unfold polling_stage. rewrite Hpolls.
  eapply hoare_bind with (R := λ o j, processing j ∧ o = Returned ("failed", failed)).
  - apply poll_loop_running_prefix; [exact Hpre | exact Hrun |].
    intros st vd Hst. cbn [poll_loop]. unfold still_running in Hst. rewrite Hst.
    cbn [lift]. apply hoare_bind_ret. cbv zeta. cbn [call_back].
    apply processing_update_then_ok; [exact Hp |].
    rewrite Hstatus. cbn [default]. rewrite poll_loop_stops by reflexivity.
    apply hoare_ret. auto.
  - intros [st vd]. apply hoare_pure. intros [= -> ->].
    cbn [String.eqb Ascii.eqb Bool.eqb]. apply hoare_bind_raise. auto.
  - intros e j [_ H]. discriminate.
  - intros j [_ H]. discriminate.
Qed.

(** The polling stage when the first reply that stops the loop does not say
    "failed" and the download succeeds. *)
Lemma polling_stage_delivers job_id w video_id video_status video_data pre final rest :
  still_running video_status = true →
  polls w = pre ++ inr final :: rest →
  Forall running_reply pre →
  still_running (default "in_progress" (vd_status final)) = false →
  String.eqb (default "in_progress" (vd_status final)) "failed" = false →
  0 ≤ default 0 (vd_progress final) ≤ 100 →
  download_reply w = None →
  hoare job_id any_step processing
    (polling_stage job_id w video_id video_status video_data)
    (λ o j, processing j ∧ o = Returned (stored_path video_id)).
Proof.
  intros Hrun Hpolls Hpre Hstop Hok Hp Hdownload. unfold polling_stage. rewrite Hpolls.
  eapply hoare_bind with
    (R := λ o j, processing j ∧
                 o = Returned (default "in_progress" (vd_status final), final)).
  - apply poll_loop_running_prefix; [exact Hpre | exact Hrun |].
    intros st vd Hst. cbn [poll_loop]. unfold still_running in Hst. rewrite Hst.
    cbn [lift]. apply hoare_bind_ret. cbv zeta. cbn [call_back].
    apply processing_update_then_ok; [exact Hp |].
    rewrite poll_loop_stops by exact Hstop.
    apply hoare_ret. auto.
  - intros [st vd]. apply hoare_pure. intros [= -> ->].
    rewrite Hok. apply hoare_bind_ret.
    apply processing_update_then_ok; [lia |].
    unfold _download_video_from_sora. rewrite Hdownload. apply hoare_bind_ret.
    apply processing_update_then_ok; [lia |].
    apply hoare_ret. auto.
  - intros e j [_ H]. discriminate.
  - intros j [_ H]. discriminate.
Qed.

(** An error raised by the video stage, seen from the [try] block. *)
Lemma try_block_raises job_id w repo_url api_key style duration script e :
  script_written w repo_url script →
  (∀ image_urls,
     hoare job_id any_step processing
       (generate_video_with_progress w script style duration
          (Some (λ p m, update_sora_progress job_id p m)) image_urls)
       (λ o j, processing j ∧ o = Raised e)) →
  hoare job_id any_step (λ _, True)
    (process_video_generation_try w job_id repo_url api_key style duration)
    (λ o j, processing j ∧ o = Raised e).
Proof.
  intros Hscript Hstage.
  eapply try_block_to_video_stage; [exact Hscript |].
  intros image_urls. unfold video_stage_and_after.
  eapply hoare_bind; [apply Hstage | | | ].
  - intros a. apply hoare_false. intros j [_ H]. discriminate.
  - intros e' j [H [= ->]]. split; [exact H | reflexivity].
  - intros j [_ H]. discriminate.
Qed.

(** A [try] block that raises [e] leaves the job Failed with the text of
    [e]. *)
Lemma failed_run job_id w repo_url api_key style duration (video_jobs : Jobs) e :
  is_Some (video_jobs !! job_id) →
  hoare job_id any_step (λ _, True)
    (process_video_generation_try w job_id repo_url api_key style duration)
    (λ o j, processing j ∧ o = Raised e) →
  outcome (process_video_generation w job_id repo_url api_key style duration video_jobs)
  = Returned tt ∧
  ∃ job, table (process_video_generation w job_id repo_url api_key style duration
                  video_jobs) !! job_id = Some job ∧
         status job = FAILED ∧ progress job = 0 ∧ message job = "Error: " +:+ str e.
Proof.
  intros [j Hj] Htry.
  destruct (Htry video_jobs j Hj I) as (k & _ & Hk & _ & Ho).
  destruct (except_block_run job_id e _ k Hk) as (Ho' & _ & Ht').
  unfold process_video_generation, try_except. rewrite Ho. cbn [outcome table].
  split; [exact Ho' |]. eexists. split; [exact Ht' |]. cbn. auto.
Qed.

(** No timeout: as long as every poll is answered "queued" or "in_progress"
    (progress in 0..100), for a request the provider accepted, the task is
    still waiting after the last reply, however many there are, and its job
    is Processing. *)
Theorem pipeline_waits_while_provider_runs (w : World) (job_id : string)
    (repo_url : Url) (api_key : string) (video_style : VideoStyle) (duration : Z)
    (video_jobs : Jobs) (script video_id : string) (video_data : VideoData) :
  is_Some (video_jobs !! job_id) →
  script_written w repo_url script →
  video_created w script video_style duration video_id video_data →
  still_running (default "queued" (vd_status video_data)) = true →
  Forall running_reply (polls w) →
  outcome (process_video_generation w job_id repo_url api_key video_style duration
             video_jobs) = Suspended ∧
  ∃ job, table (process_video_generation w job_id repo_url api_key video_style duration
                  video_jobs) !! job_id = Some job ∧
         status job = PROCESSING.
Proof.
  intros [j Hj] Hscript Hcreated Hrun Hall.
  assert (Htry : hoare job_id any_step (λ _, True)
                   (process_video_generation_try w job_id repo_url api_key video_style
                      duration)
                   (λ o j, processing j ∧ o = Suspended)).
  { eapply try_block_to_video_stage; [exact Hscript |].
    intros image_urls. unfold video_stage_and_after.
    eapply hoare_bind with (R := λ o j, processing j ∧ o = Suspended).
    - eapply video_stage_to_polling;
        [exact Hcreated | apply polling_stage_waits; assumption | | |].
      + intros p k [_ H]. discriminate.
      + intros e k [_ H]. discriminate.
      + intros k H. exact H.
    - intros a. apply hoare_false. intros k [_ H]. discriminate.
    - intros e k [_ H]. discriminate.
    - intros k [H _]. split; [exact H | reflexivity]. }
  destruct (Htry video_jobs j Hj I) as (k & _ & Hk & Hproc & Ho).
  unfold process_video_generation, try_except. rewrite Ho.
  split; [exact Ho |]. exists k. auto.
Qed.

Lemma pipeline_waits_while_provider_runs_witness :
  outcome (process_video_generation waiting_world "job-1" (repo_url hello_world_request)
             "sk-0123456789abcdefghij" TECH 8 {[ "job-1" := queued_job ]}) = Suspended ∧
  ∃ job, table (process_video_generation waiting_world "job-1"
                  (repo_url hello_world_request) "sk-0123456789abcdefghij" TECH 8
                  {[ "job-1" := queued_job ]}) !! "job-1" = Some job ∧
         status job = PROCESSING.
Proof.
  apply (pipeline_waits_while_provider_runs waiting_world "job-1"
           (repo_url hello_world_request) "sk-0123456789abcdefghij" TECH 8
           {[ "job-1" := queued_job ]}
           "A terminal window lists the files of the project." "video_1"
           {| vd_id := Some "video_1"; vd_status := Some "queued";
              vd_progress := Some 0; vd_error := None |}).
  - eexists. apply lookup_singleton_eq.
  - split; [do 2 eexists; vm_compute; reflexivity | reflexivity].
  - eexists. repeat split; reflexivity.
  - reflexivity.
  - repeat (apply List.Forall_cons;
            [eexists; split; [reflexivity | split; [reflexivity | cbn; lia]] |]).
    apply List.Forall_nil.
Defined.

(** When the first poll reply that is not "queued" or "in_progress" says
    "failed", the task returns with its job Failed at 0 and the provider's
    error text in the message. *)
Theorem provider_failure_is_reported (w : World) (job_id : string)
    (repo_url : Url) (api_key : string) (video_style : VideoStyle) (duration : Z)
    (video_jobs : Jobs) (script video_id : string) (video_data failed : VideoData)
    (pre rest : list (Exception + VideoData)) :
  is_Some (video_jobs !! job_id) →
  script_written w repo_url script →
  video_created w script video_style duration video_id video_data →
  still_running (default "queued" (vd_status video_data)) = true →
  polls w = pre ++ inr failed :: rest →
  Forall running_reply pre →
  vd_status failed = Some "failed" →
  0 ≤ default 0 (vd_progress failed) ≤ 100 →
  outcome (process_video_generation w job_id repo_url api_key video_style duration
             video_jobs) = Returned tt ∧
  ∃ job, table (process_video_generation w job_id repo_url api_key video_style duration
                  video_jobs) !! job_id = Some job ∧
         status job = FAILED ∧ progress job = 0 ∧
         message job
         = "Error: Video generation failed: Video generation failed in Sora: "
           +:+ default "Unknown error" (vd_error failed).
Proof.
  intros Hjob Hscript Hcreated Hrun Hpolls Hpre Hstatus Hp.
  eapply (failed_run job_id w repo_url api_key video_style duration video_jobs
            (Exception_ ("Video generation failed: Video generation failed in Sora: "
                         +:+ default "Unknown error" (vd_error failed))));
    [exact Hjob |].
  eapply try_block_raises; [exact Hscript |]. intros image_urls.
  eapply video_stage_to_polling;
    [exact Hcreated | eapply polling_stage_failed; eassumption | | |].
  - intros p k [_ H]. discriminate.
  - intros e k [Hk [= ->]]. split; [exact Hk | reflexivity].
  - intros k [_ H]. discriminate.
Qed.

Lemma provider_failure_is_reported_witness :
  ∃ job, table (process_video_generation failing_world "job-1"
                  (repo_url hello_world_request) "sk-0123456789abcdefghij" TECH 8
                  {[ "job-1" := queued_job ]}) !! "job-1" = Some job ∧
         status job = FAILED ∧ progress job = 0 ∧
         message job
         = "Error: Video generation failed: Video generation failed in Sora: moderation".
Proof.
  refine (proj2 (provider_failure_is_reported failing_world "job-1"
                   (repo_url hello_world_request) "sk-0123456789abcdefghij" TECH 8
                   {[ "job-1" := queued_job ]}
                   "A terminal window lists the files of the project." "video_1"
                   {| vd_id := Some "video_1"; vd_status := Some "queued";
                      vd_progress := Some 0; vd_error := None |}
                   {| vd_id := Some "video_1"; vd_status := Some "failed";
                      vd_progress := Some 10; vd_error := Some "moderation" |}
                   [poll_reply "queued" 0] [] _ _ _ _ _ _ _ _)).
  - eexists. apply lookup_singleton_eq.
  - split; [do 2 eexists; vm_compute; reflexivity | reflexivity].
  - eexists. repeat split; reflexivity.
  - reflexivity.
  - reflexivity.
  - apply List.Forall_cons; [| apply List.Forall_nil].
    eexists. split; [reflexivity | split; [reflexivity | cbn; lia]].
  - reflexivity.
  - cbn. lia.
Defined.

(** When the provider answers the creation request with a status code other
    than 200, the task returns with its job Failed at 0 and a message that
    carries the status code and the body of the answer. *)
Theorem provider_refusal_is_reported (w : World) (job_id : string)
    (repo_url : Url) (api_key : string) (video_style : VideoStyle) (duration : Z)
    (video_jobs : Jobs) (script : string) (create_response : CreateResponse) :
  is_Some (video_jobs !! job_id) →
  script_written w repo_url script →
  create_reply w (sora_form script video_style duration) = inr create_response →
  status_code create_response ≠ 200 →
  outcome (process_video_generation w job_id repo_url api_key video_style duration
             video_jobs) = Returned tt ∧
  ∃ job, table (process_video_generation w job_id repo_url api_key video_style duration
                  video_jobs) !! job_id = Some job ∧
         status job = FAILED ∧ progress job = 0 ∧
         message job
         = "Error: Video generation failed: Sora API returned "
           +:+ PyStr.of_int (status_code create_response)
           +:+ ": " +:+ text create_response.
Proof.
  intros Hjob Hscript Hcreate Hcode.
  eapply (failed_run job_id w repo_url api_key video_style duration video_jobs
            (Exception_ (refusal_message create_response))); [exact Hjob |].
  eapply try_block_raises; [exact Hscript |]. intros image_urls.
  unfold generate_video_with_progress.
  eapply hoare_try with
    (R := λ o j, processing j ∧
            o = Raised (Exception_ ("Sora API returned "
                                    +:+ PyStr.of_int (status_code create_response)
                                    +:+ ": " +:+ text create_response))).
  - cbn [call_back]. apply processing_update_then_ok; [lia |].
    apply hoare_bind_lift.
    { intros e He. unfold sora_form in Hcreate. congruence. }
    intros create_response' Hcreate'. unfold sora_form in Hcreate.
    assert (create_response' = create_response) as -> by congruence.
    destruct (Z.eqb_spec (status_code create_response) 200) as [Heq | _];
      [contradiction |].
    cbn [negb]. apply hoare_bind_raise. auto.
  - intros e. apply hoare_raise. intros j [Hj [= ->]]. split; [exact Hj | reflexivity].
  - intros a j [_ H]. discriminate.
  - intros j [_ H]. discriminate.
Qed.

Lemma provider_refusal_is_reported_witness :
  ∃ job, table (process_video_generation refusing_world "job-1"
                  (repo_url hello_world_request) "sk-0123456789abcdefghij" TECH 8
                  {[ "job-1" := queued_job ]}) !! "job-1" = Some job ∧
         status job = FAILED ∧ progress job = 0 ∧
         message job
         = "Error: Video generation failed: Sora API returned 401: invalid api key".
Proof.
  refine (proj2 (provider_refusal_is_reported refusing_world "job-1"
                   (repo_url hello_world_request) "sk-0123456789abcdefghij" TECH 8
                   {[ "job-1" := queued_job ]}
                   "A terminal window lists the files of the project."
                   {| status_code := 401; text := "invalid api key";
                      json := inl (ExternalError "no JSON") |} _ _ _ _)).
  - eexists. apply lookup_singleton_eq.
  - split; [do 2 eexists; vm_compute; reflexivity | reflexivity].
  - reflexivity.
  - discriminate.
Defined.

(** When the first poll reply that is neither "queued" nor "in_progress" is
    not "failed" either, and the download succeeds, the task returns with its
    job Completed at 100, the file stored under the provider's identifier of
    the video, and the URL of the download endpoint. *)
Theorem delivered_video_completes_job (w : World) (job_id : string)
    (repo_url : Url) (api_key : string) (video_style : VideoStyle) (duration : Z)
    (video_jobs : Jobs) (script video_id : string) (video_data final : VideoData)
    (pre rest : list (Exception + VideoData)) :
  is_Some (video_jobs !! job_id) →
  script_written w repo_url script →
  video_created w script video_style duration video_id video_data →
  still_running (default "queued" (vd_status video_data)) = true →
  polls w = pre ++ inr final :: rest →
  Forall running_reply pre →
  still_running (default "in_progress" (vd_status final)) = false →
  String.eqb (default "in_progress" (vd_status final)) "failed" = false →
  0 ≤ default 0 (vd_progress final) ≤ 100 →
  download_reply w = None →
  outcome (process_video_generation w job_id repo_url api_key video_style duration
             video_jobs) = Returned tt ∧
  ∃ job, table (process_video_generation w job_id repo_url api_key video_style duration
                  video_jobs) !! job_id = Some job ∧
         status job = COMPLETED ∧ progress job = 100 ∧
         message job = "Video generated successfully!" ∧
         video_path job = Some (stored_path video_id) ∧
         video_url job = Some ("http://localhost:8000/api/video/" +:+ job_id).
Proof.
  intros [j Hj] Hscript Hcreated Hrun Hpolls Hpre Hstop Hok Hp Hdownload.
  assert (Htry : hoare job_id any_step (λ _, True)
                   (process_video_generation_try w job_id repo_url api_key video_style
                      duration)
                   (λ o k, (status k = COMPLETED ∧ progress k = 100 ∧
                            message k = "Video generated successfully!" ∧
                            video_path k = Some (stored_path video_id) ∧
                            video_url k
                            = Some ("http://localhost:8000/api/video/" +:+ job_id)) ∧
                           o = Returned tt)).
  { eapply try_block_to_video_stage; [exact Hscript |].
    intros image_urls. unfold video_stage_and_after.
    eapply hoare_bind with
      (R := λ o k, processing k ∧ o = Returned (stored_path video_id)).
    - eapply video_stage_to_polling;
        [exact Hcreated | eapply polling_stage_delivers; eassumption | | |].
      + intros p k H. exact H.
      + intros e k [_ H]. discriminate.
      + intros k [_ H]. discriminate.
    - intros video_path. apply hoare_pure. intros [= ->].
      eapply hoare_setattr_then with (P' := λ k, status k = COMPLETED).
      { intros k _. split; [exact I | reflexivity]. }
      eapply hoare_setattr_then with
        (P' := λ k, status k = COMPLETED ∧ message k = "Video generated successfully!").
      { intros k Hk. split; [exact I | split; [exact Hk | reflexivity]]. }
      eapply hoare_setattr_then with
        (P' := λ k, status k = COMPLETED ∧ message k = "Video generated successfully!" ∧
                    progress k = 100).
      { intros k [Hs Hm]. split; [exact I | repeat split; assumption]. }
      eapply hoare_setattr_then with
        (P' := λ k, status k = COMPLETED ∧ message k = "Video generated successfully!" ∧
                    progress k = 100 ∧ video_path k = Some (stored_path video_id)).
      { intros k (Hs & Hm & Hpr). split; [exact I | repeat split; assumption]. }
      apply hoare_setattr. intros k (Hs & Hm & Hpr & Hv). split; [exact I |].
      cbn. repeat split; assumption.
    - intros e k [_ H]. discriminate.
    - intros k [_ H]. discriminate. }
  destruct (Htry video_jobs j Hj I) as (k & _ & Hk & Hdone & Ho).
  unfold process_video_generation, try_except. rewrite Ho.
  split; [exact Ho |]. exists k. split; [exact Hk |]. exact Hdone.
Qed.

Lemma delivered_video_completes_job_witness :
  ∃ job, table (process_video_generation usual_world "job-1"
                  (repo_url hello_world_request) "sk-0123456789abcdefghij" TECH 8
                  {[ "job-1" := queued_job ]}) !! "job-1" = Some job ∧
         status job = COMPLETED ∧ progress job = 100 ∧
         message job = "Video generated successfully!" ∧
         video_path job = Some (stored_path "video_1") ∧
         video_url job = Some "http://localhost:8000/api/video/job-1".
Proof.
  refine (proj2 (delivered_video_completes_job usual_world "job-1"
                   (repo_url hello_world_request) "sk-0123456789abcdefghij" TECH 8
                   {[ "job-1" := queued_job ]}
                   "A terminal window lists the files of the project." "video_1"
                   {| vd_id := Some "video_1"; vd_status := Some "queued";
                      vd_progress := Some 0; vd_error := None |}
                   {| vd_id := Some "video_1"; vd_status := Some "completed";
                      vd_progress := Some 100; vd_error := None |}
                   [poll_reply "queued" 0; poll_reply "in_progress" 50] []
                   _ _ _ _ _ _ _ _ _ _)).
  - eexists. apply lookup_singleton_eq.
  - split; [do 2 eexists; vm_compute; reflexivity | reflexivity].
  - eexists. repeat split; reflexivity.
  - reflexivity.
  - reflexivity.
  - repeat (apply List.Forall_cons;
            [eexists; split; [reflexivity | split; [reflexivity | cbn; lia]] |]).
    apply List.Forall_nil.
  - reflexivity.
  - reflexivity.
  - cbn. lia.
  - reflexivity.
Defined.

(** When the download of a video the provider finished fails, the task
    returns with its job Failed at 0; the message wraps the text of the
    download error twice. *)
Theorem download_failure_is_reported (w : World) (job_id : string)
    (repo_url : Url) (api_key : string) (video_style : VideoStyle) (duration : Z)
    (video_jobs : Jobs) (script video_id : string) (video_data final : VideoData)
    (pre rest : list (Exception + VideoData)) (e : Exception) :
  is_Some (video_jobs !! job_id) →
  script_written w repo_url script →
  video_created w script video_style duration video_id video_data →
  still_running (default "queued" (vd_status video_data)) = true →
  polls w = pre ++ inr final :: rest →
  Forall running_reply pre →
  still_running (default "in_progress" (vd_status final)) = false →
  String.eqb (default "in_progress" (vd_status final)) "failed" = false →
  0 ≤ default 0 (vd_progress final) ≤ 100 →
  download_reply w = Some e →
  outcome (process_video_generation w job_id repo_url api_key video_style duration
             video_jobs) = Returned tt ∧
  ∃ job, table (process_video_generation w job_id repo_url api_key video_style duration
                  video_jobs) !! job_id = Some job ∧
         status job = FAILED ∧ progress job = 0 ∧
         message job
         = "Error: Video generation failed: Failed to download video: " +:+ str e.
Proof.
  intros Hjob Hscript Hcreated Hrun Hpolls Hpre Hstop Hok Hp Hdownload.
  eapply (failed_run job_id w repo_url api_key video_style duration video_jobs
            (Exception_ ("Video generation failed: Failed to download video: "
                         +:+ str e))); [exact Hjob |].
  eapply try_block_raises; [exact Hscript |]. intros image_urls.
  eapply video_stage_to_polling with
    (R := λ o j, processing j ∧
                 o = Raised (Exception_ ("Failed to download video: " +:+ str e)));
    [exact Hcreated | | | |].
  - unfold polling_stage. rewrite Hpolls.
    eapply hoare_bind with
      (R := λ o j, processing j ∧
                   o = Returned (default "in_progress" (vd_status final), final)).
    + apply poll_loop_running_prefix; [exact Hpre | exact Hrun |].
      intros st vd Hst. cbn [poll_loop]. unfold still_running in Hst. rewrite Hst.
      cbn [lift]. apply hoare_bind_ret. cbv zeta. cbn [call_back].
      apply processing_update_then_ok; [exact Hp |].
      rewrite poll_loop_stops by exact Hstop.
      apply hoare_ret. auto.
    + intros [st vd]. apply hoare_pure. intros [= -> ->].
      rewrite Hok. apply hoare_bind_ret.
      apply processing_update_then_ok; [lia |].
      unfold _download_video_from_sora. rewrite Hdownload.
      apply hoare_bind_raise. auto.
    + intros e' j [_ H]. discriminate.
    + intros j [_ H]. discriminate.
  - intros p k [_ H]. discriminate.
  - intros e' k [Hk [= ->]]. split; [exact Hk | reflexivity].
  - intros k [_ H]. discriminate.
Qed.

Lemma download_failure_is_reported_witness :
  ∃ job, table (process_video_generation lost_download_world "job-1"
                  (repo_url hello_world_request) "sk-0123456789abcdefghij" TECH 8
                  {[ "job-1" := queued_job ]}) !! "job-1" = Some job ∧
         status job = FAILED ∧ progress job = 0 ∧
         message job
         = "Error: Video generation failed: Failed to download video: 404 Not Found".
Proof.
  refine (proj2 (download_failure_is_reported lost_download_world "job-1"
                   (repo_url hello_world_request) "sk-0123456789abcdefghij" TECH 8
                   {[ "job-1" := queued_job ]}
                   "A terminal window lists the files of the project." "video_1"
                   {| vd_id := Some "video_1"; vd_status := Some "queued";
                      vd_progress := Some 0; vd_error := None |}
                   {| vd_id := Some "video_1"; vd_status := Some "completed";
                      vd_progress := Some 100; vd_error := None |}
                   [] [] (HTTPStatusError "404 Not Found") _ _ _ _ _ _ _ _ _ _)).
  - eexists. apply lookup_singleton_eq.
  - split; [do 2 eexists; vm_compute; reflexivity | reflexivity].
  - eexists. repeat split; reflexivity.
  - reflexivity.
  - reflexivity.
  - apply List.Forall_nil.
  - reflexivity.
  - reflexivity.
  - cbn. lia.
  - reflexivity.
Defined.

(** ** The range of the progress shown *)

Section Range.
Context (job_id : string) (R : Z → Prop).
Hypothesis marks : ∀ v, 0 ≤ v ≤ 100 → R v.

Lemma within_ret {A} (a : A) : within job_id R (mret a).
Proof. apply hoare_ret. auto. Qed.

Lemma within_raise {A} (e : Exception) : within job_id R (raise e : M A).
Proof. apply hoare_raise. auto. Qed.

Lemma within_suspend {A} : within job_id R (suspend : M A).
Proof. apply hoare_suspend. auto. Qed.

Lemma within_lift {A} (r : Exception + A) : within job_id R (lift r).
Proof. apply hoare_lift; auto. Qed.

Lemma within_bind {A B} (m : M A) (f : A → M B) :
  within job_id R m → (∀ a, within job_id R (f a)) → within job_id R (m ≫= f).
Proof. intros Hm Hf. eapply hoare_bind; eauto. Qed.

Lemma within_try {A} (body : M A) (handler : Exception → M A) :
  within job_id R body → (∀ e, within job_id R (handler e)) →
  within job_id R (try_except body handler).
Proof. intros Hm Hf. eapply hoare_try; eauto. Qed.

(** An assignment to another attribute shows the progress it found. *)
Lemma within_assign assign :
  (∀ j, progress (assign j) = progress j) → within job_id R (setattr job_id assign).
Proof. intros H. apply hoare_setattr. intros j Hj. cbv beta. rewrite H. auto. Qed.

Lemma within_set_progress v : 0 ≤ v ≤ 100 → within job_id R (setattr job_id (set_progress v)).
Proof. intros Hv. apply hoare_setattr. intros j _. cbn. auto. Qed.

Lemma within_update p m : stored_ok R p → within job_id R (update_sora_progress job_id p m).
Proof.
  intros Hp. apply hoare_update.
  - intros e _ j Hj. exact Hj.
  - intros v Hv j _. cbn. auto.
Qed.

Lemma stored_ok_mark p : 0 ≤ p ≤ 100 → stored_ok R p.
Proof.
  intros Hp v Hv. rewrite displayed_progress_exact in Hv by exact Hp.
  injection Hv as <-. apply marks.
  assert (0 ≤ 65 * p / 100) by (apply Z.div_pos; lia). lia.
Qed.

Lemma within_poll_loop replies : ∀ video_status video_data,
  Forall (stored_ok R) (reported_progress replies) →
  within job_id R
    (poll_loop (Some (λ p m, update_sora_progress job_id p m)) replies
       video_status video_data).
Proof.
  induction replies as [| reply replies IH]; intros video_status video_data Hall;
    cbn [poll_loop]; destruct (in_list video_status _).
  - apply within_suspend.
  - apply within_ret.
  - destruct reply as [e | vd]; cbn [lift].
    + apply hoare_bind_raise. auto.
    + apply hoare_bind_ret. cbv zeta. cbn [call_back].
      unfold reported_progress in Hall. cbn [omap list_omap] in Hall.
      apply Forall_cons in Hall. destruct Hall as [Hp Hall].
      apply within_bind; [apply within_update; exact Hp |]. intros _.
      apply IH. exact Hall.
  - apply within_ret.
Qed.

Lemma within_generate_video_with_progress w script style duration image_urls :
  Forall (stored_ok R) (reported_progress (polls w)) →
  within job_id R
    (generate_video_with_progress w script style duration
       (Some (λ p m, update_sora_progress job_id p m)) image_urls).
Proof.
  intros Hall. unfold generate_video_with_progress. cbn [call_back].
  apply within_try; [| intros e; apply within_raise].
  apply within_bind; [apply within_update, stored_ok_mark; lia |]. intros _.
  apply within_bind; [apply within_lift |]. intros create_response.
  apply within_bind.
  { destruct (negb _); [apply within_raise | apply within_lift]. }
  intros video_data.
  apply within_bind.
  { destruct (vd_id video_data); [apply within_ret | apply within_raise]. }
  intros video_id.
  apply within_bind; [apply within_update, stored_ok_mark; lia |]. intros _.
  apply within_bind; [apply within_poll_loop; exact Hall |].
  intros [video_status video_data'].
  apply within_bind.
  { destruct (String.eqb video_status "failed"); [apply within_raise | apply within_ret]. }
  intros _.
  apply within_bind; [apply within_update, stored_ok_mark; lia |]. intros _.
  apply within_bind.
  { unfold _download_video_from_sora.
    destruct (download_reply w); [apply within_raise | apply within_ret]. }
  intros video_path.
  apply within_bind; [apply within_update, stored_ok_mark; lia |]. intros _.
  apply within_ret.
Qed.

Lemma within_process_video_generation w repo_url api_key style duration :
  Forall (stored_ok R) (reported_progress (polls w)) →
  within job_id R (process_video_generation w job_id repo_url api_key style duration).
Proof.
  intros Hall. unfold process_video_generation.
  apply within_try.
  - unfold process_video_generation_try.
    repeat first
      [ apply within_set_progress; lia
      | apply within_assign; reflexivity
      | apply within_lift
      | apply within_generate_video_with_progress; exact Hall
      | apply within_bind; [| intros ?] ].
  - intros e. unfold process_video_generation_except.
    repeat first
      [ apply within_set_progress; lia
      | apply within_assign; reflexivity
      | apply within_bind; [| intros ?] ].
Qed.

Lemma chain_within ws : ∀ j j',
  chain_to job_id (λ _ k, R (progress k)) j ws j' →
  Forall (λ k, R (progress k)) (job_history job_id ws).
Proof.
  induction ws as [| t ws IH]; intros j j' Hc; cbn in Hc.
  - apply Forall_nil_2.
  - destruct Hc as (k & Hk & Hstep & Hc).
    unfold job_history. cbn [omap list_omap]. rewrite Hk.
    apply Forall_cons. split; [exact Hstep |]. exact (IH k j' Hc).
Qed.

End Range.

(** What the callback stores is at most 95, whatever the provider reports. *)
Lemma stored_at_most_95 (p v : Z) : displayed_progress p = inr v → v ≤ 95.
Proof.
  unfold displayed_progress. destruct (mapped_progress p); [discriminate |].
  intros [= <-]. lia.
Qed.

(** For a job whose progress starts in 0..100, as a submission creates it,
    every snapshot a status reader can see during the run shows a progress of
    at most 100, whatever the providers answer; and none shows a negative
    progress if the progress values the provider reports lie in 0..100. *)
Theorem progress_stays_in_range (w : World) (job_id : string) (repo_url : Url)
    (api_key : string) (video_style : VideoStyle) (duration : Z)
    (video_jobs : Jobs) (job : VideoStatusResponse) :
  video_jobs !! job_id = Some job →
  0 ≤ progress job ≤ 100 →
  Forall (λ k, progress k ≤ 100)
    (job_history job_id
       (writes (process_video_generation w job_id repo_url api_key video_style duration
                  video_jobs))) ∧
  (Forall (λ p, 0 ≤ p ≤ 100) (reported_progress (polls w)) →
   Forall (λ k, 0 ≤ progress k ≤ 100)
     (job_history job_id
        (writes (process_video_generation w job_id repo_url api_key video_style duration
                   video_jobs)))).
Proof.
  intros Hjob Hrange. split.
  - assert (Hmarks : ∀ v, 0 ≤ v ≤ 100 → v ≤ 100) by (intros; lia).
    assert (Hall : Forall (stored_ok (λ v, v ≤ 100)) (reported_progress (polls w))).
    { apply Forall_forall. intros p _ v Hv. apply stored_at_most_95 in Hv. lia. }
    destruct (within_process_video_generation job_id (λ v, v ≤ 100) Hmarks
                w repo_url api_key video_style duration Hall
                video_jobs job Hjob (proj2 Hrange)) as (j' & Hchain & _).
    exact (chain_within job_id (λ v, v ≤ 100) _ _ _ Hchain).
  - intros Hpolls.
    assert (Hmarks : ∀ v, 0 ≤ v ≤ 100 → 0 ≤ v ≤ 100) by auto.
    assert (Hall : Forall (stored_ok (λ v, 0 ≤ v ≤ 100)) (reported_progress (polls w))).
    { eapply Forall_impl; [exact Hpolls |].
      intros p Hp. apply stored_ok_mark; [exact Hmarks | exact Hp]. }
    destruct (within_process_video_generation job_id (λ v, 0 ≤ v ≤ 100) Hmarks
                w repo_url api_key video_style duration Hall
                video_jobs job Hjob Hrange) as (j' & Hchain & _).
    exact (chain_within job_id (λ v, 0 ≤ v ≤ 100) _ _ _ Hchain).
Qed.

Lemma progress_stays_in_range_witness :
  Forall (λ k, 0 ≤ progress k ≤ 100)
    (job_history "job-1"
       (writes (process_video_generation usual_world "job-1"
                  (repo_url hello_world_request) "sk-0123456789abcdefghij" TECH 8
                  {[ "job-1" := queued_job ]}))).
Proof.
  apply (progress_stays_in_range usual_world "job-1" (repo_url hello_world_request)
           "sk-0123456789abcdefghij" TECH 8 {[ "job-1" := queued_job ]} queued_job).
  - apply lookup_singleton_eq.
  - cbn. lia.
  - change (reported_progress (polls usual_world)) with [0; 50; 100].
    repeat (apply List.Forall_cons; [lia |]). apply List.Forall_nil.
Defined.

(** ** Text *)

Lemma has_char_cons c x r :
  has_char c (String x r) = false ↔ x ≠ c ∧ has_char c r = false.
Proof.
  unfold has_char. cbn [list_ascii_of_string existsb].
  rewrite orb_false_iff, Ascii.eqb_neq. intuition congruence.
Qed.

Lemma split_no_sep sep s : has_char sep s = false → PyStr.split sep s = [s].
Proof.
  induction s as [| c r IH]; [reflexivity |].
  intros [Hc Hr]%has_char_cons. cbn [PyStr.split].
  apply Ascii.eqb_neq in Hc. rewrite Hc, (IH Hr). reflexivity.
Qed.

Lemma append_nil s : "" +:+ s = s.
Proof. reflexivity. Qed.

Lemma append_cons c r s : String c r +:+ s = String c (r +:+ s).
Proof. reflexivity. Qed.

Lemma split_app sep a b :
  has_char sep a = false → PyStr.split sep (a +:+ String sep b) = a :: PyStr.split sep b.
Proof.
  induction a as [| c r IH].
  - intros _. rewrite append_nil. cbn [PyStr.split]. rewrite Ascii.eqb_refl. reflexivity.
  - intros [Hc Hr]%has_char_cons. rewrite append_cons. cbn [PyStr.split].
    apply Ascii.eqb_neq in Hc. rewrite Hc, (IH Hr). reflexivity.
Qed.

Lemma append_empty_r s : s +:+ "" = s.
Proof. induction s as [| c r IH]; rewrite ?append_nil, ?append_cons; congruence. Qed.

Lemma rev_onto_append a : ∀ b acc,
  PyStr.rev_onto (a +:+ b) acc = PyStr.rev_onto b (PyStr.rev_onto a acc).
Proof.
  induction a as [| c r IH]; intros b acc; rewrite ?append_nil, ?append_cons;
    [reflexivity | apply IH].
Qed.

Lemma rev_onto_rev_onto s : ∀ acc t,
  PyStr.rev_onto (PyStr.rev_onto s acc) t = PyStr.rev_onto acc (s +:+ t).
Proof.
  induction s as [| c r IH]; intros acc t; rewrite ?append_nil, ?append_cons;
    cbn [PyStr.rev_onto]; [reflexivity | now rewrite IH].
Qed.

Lemma reverse_involutive s : PyStr.reverse (PyStr.reverse s) = s.
Proof.
  unfold PyStr.reverse. rewrite rev_onto_rev_onto. cbn [PyStr.rev_onto].
  apply append_empty_r.
Qed.

(** The reverse of a non-empty text free of [c] starts with another
    character. *)
Lemma rev_onto_head c s : ∀ acc,
  s ≠ "" → has_char c s = false →
  ∃ x r, PyStr.rev_onto s acc = String x r ∧ x ≠ c.
Proof.
  induction s as [| a s IH]; intros acc Hne Hfree; [congruence |].
  apply has_char_cons in Hfree. destruct Hfree as [Ha Hs]. cbn [PyStr.rev_onto].
  destruct s as [| b s'].
  - cbn. eauto.
  - apply IH; [discriminate | exact Hs].
Qed.

Lemma prefix_empty s : String.prefix "" s = true.
Proof. destruct s; reflexivity. Qed.

(** Nothing is stripped from a text that starts with another character. *)
Lemma lstrip_rounds_head n c x r :
  x ≠ c → PyStr.lstrip_rounds n [String c ""] (String x r) = String x r.
Proof.
  intros Hx. destruct n; [reflexivity |]. cbn [PyStr.lstrip_rounds find String.prefix].
  destruct (ascii_dec c x); [congruence | reflexivity].
Qed.

Lemma lstrip_rounds_step n c s :
  PyStr.lstrip_rounds (S n) [String c ""] (String c s)
  = PyStr.lstrip_rounds n [String c ""] s.
Proof.
  cbn [PyStr.lstrip_rounds find String.prefix].
  destruct (ascii_dec c c); [| congruence]. rewrite prefix_empty. reflexivity.
Qed.

Lemma lstrip_head c x r : x ≠ c → PyStr.lstrip (String x r) [String c ""] = String x r.
Proof. apply lstrip_rounds_head. Qed.

Lemma rstrip_free c s :
  s ≠ "" → has_char c s = false → ∀ a, PyStr.rstrip (a +:+ s) [String c ""] = a +:+ s.
Proof.
  intros Hne Hfree a. unfold PyStr.rstrip.
  change (List.map PyStr.reverse [String c ""]) with [String c ""].
  assert (H : PyStr.lstrip (PyStr.reverse (a +:+ s)) [String c ""]
              = PyStr.reverse (a +:+ s)).
  { unfold PyStr.reverse. rewrite rev_onto_append.
    destruct (rev_onto_head c s (PyStr.rev_onto a "") Hne Hfree) as (x & r & -> & Hx).
    apply lstrip_head. exact Hx. }
  rewrite H. apply reverse_involutive.
Qed.

Lemma strip_slashes owner rest :
  owner ≠ "" → has_char "/" owner = false →
  rest ≠ "" → has_char "/" rest = false →
  PyStr.strip ("/" +:+ owner +:+ "/" +:+ rest) ["/"] = owner +:+ "/" +:+ rest.
Proof.
  intros Ho Hfo Hr Hfr. unfold PyStr.strip.
  assert (H : PyStr.lstrip ("/" +:+ owner +:+ "/" +:+ rest) ["/"]
              = owner +:+ "/" +:+ rest).
  { destruct owner as [| x o]; [congruence |].
    apply has_char_cons in Hfo. destruct Hfo as [Hx _].
    unfold PyStr.lstrip. rewrite !append_cons, !append_nil.
    cbn [String.length]. rewrite lstrip_rounds_step.
    apply lstrip_rounds_head. exact Hx. }
  rewrite H.
  change (owner +:+ "/" +:+ rest) with (owner +:+ String "/" rest).
  replace (owner +:+ String "/" rest) with ((owner +:+ "/") +:+ rest).
  - apply rstrip_free; assumption.
  - clear. induction owner as [| c r IH]; [reflexivity |].
    rewrite !append_cons. congruence.
Qed.

(** ** URL parsing *)

(** For a URL whose path is "/owner/repo", with both segments non-empty and
    free of slashes, parsing returns the owner and the repository name with
    every occurrence of ".git" removed, not only a trailing one. *)
Theorem parse_github_url_owner_repo (url : Url) (owner repo : string) :
  path url = "/" +:+ owner +:+ "/" +:+ repo →
  owner ≠ "" → has_char "/" owner = false →
  repo ≠ "" → has_char "/" repo = false →
  _parse_github_url url = inr (owner, PyStr.replace repo ".git" "").
Proof.
  intros Hpath Ho Hfo Hr Hfr. unfold _parse_github_url.
  rewrite Hpath, strip_slashes by assumption.
  change (owner +:+ "/" +:+ repo) with (owner +:+ String "/" repo).
  rewrite split_app, split_no_sep by assumption. reflexivity.
Qed.

Lemma parse_github_url_owner_repo_witness :
  _parse_github_url {| scheme := "https"; netloc := "github.com";
                       path := "/octocat/octocat.github.io" |}
  = inr ("octocat", "octocathub.io").
Proof.
  apply (parse_github_url_owner_repo
           {| scheme := "https"; netloc := "github.com";
              path := "/octocat/octocat.github.io" |} "octocat" "octocat.github.io");
    [reflexivity | discriminate | reflexivity | discriminate | reflexivity].
Defined.

(** ** Image URLs *)

Section ImageUrls.
Context (file_tree owner repo : string).

Lemma guessed_urls_are_image_urls filename (subdirs : list string) :
  is_image_name filename = true →
  (∀ subdir, In subdir subdirs → In subdir asset_subdirs) →
  ∀ image_urls,
    Forall (image_url_of file_tree owner repo) image_urls →
    Forall (image_url_of file_tree owner repo)
      (fold_left
         (λ image_urls subdir,
            if PyStr.contains subdir (PyStr.lower file_tree) then
              let alt_url := raw_base owner repo +:+ subdir +:+ "/" +:+ filename in
              if negb (in_list alt_url image_urls) then image_urls ++ [alt_url]
              else image_urls
            else image_urls)
         subdirs image_urls).
Proof.
  intros Himage. induction subdirs as [| subdir subdirs IH]; intros Hsub image_urls Hall.
  - exact Hall.
  - cbn [fold_left]. apply IH; [intros s Hs; apply Hsub; now right |].
    destruct (PyStr.contains subdir (PyStr.lower file_tree)) eqn:Hin; [| exact Hall].
    cbv zeta. destruct (negb _); [| exact Hall].
    apply Forall_app. split; [exact Hall |].
    apply Forall_cons. split; [| apply Forall_nil_2].
    exists filename. split; [exact Himage |]. right.
    exists subdir. split; [apply Hsub; now left |]. auto.
Qed.

Lemma scan_image_line_urls image_urls line :
  Forall (image_url_of file_tree owner repo) image_urls →
  Forall (image_url_of file_tree owner repo)
    (scan_image_line file_tree owner repo image_urls line).
Proof.
  intros Hall. unfold scan_image_line.
  destruct (negb (PyStr.truthy (PyStr.strip_ws line))); [exact Hall |]. cbv zeta.
  match goal with |- context [negb (PyStr.truthy ?f)] => set (filename := f) end.
  destruct (negb (PyStr.truthy filename)); [exact Hall |].
  fold (is_image_name filename).
  destruct (is_image_name filename) eqn:Himage; [| exact Hall].
  apply guessed_urls_are_image_urls; [exact Himage | auto |].
  apply Forall_app. split; [exact Hall |].
  apply Forall_cons. split; [| apply Forall_nil_2].
  exists filename. auto.
Qed.

Lemma scan_image_lines_urls lines : ∀ image_urls,
  Forall (image_url_of file_tree owner repo) image_urls →
  Forall (image_url_of file_tree owner repo)
    (fold_left (scan_image_line file_tree owner repo) lines image_urls).
Proof.
  induction lines as [| line lines IH]; intros image_urls Hall; cbn [fold_left].
  - exact Hall.
  - apply IH, scan_image_line_urls, Hall.
Qed.

End ImageUrls.

(** Every URL that image-URL extraction returns is a raw-content URL on
    branch main of the given owner and repository, for a file name that ends
    with an image extension, at the top level or under an asset directory
    whose name occurs in the tree. *)
Theorem extract_image_urls_only_images (file_tree owner repo : string) :
  Forall (image_url_of file_tree owner repo) (_extract_image_urls file_tree owner repo).
Proof.
  unfold _extract_image_urls. cbv zeta.
  apply Forall_take, scan_image_lines_urls, Forall_nil_2.
Qed.

(** ** The README *)

Lemma len_nonneg s : 0 ≤ len s.
Proof.
  induction s as [| c r IH]; cbn [len]; [lia |].
  destruct (_ && _); lia.
Qed.

Lemma len_take_chars s : ∀ n, len (PyStr.take_chars n s) ≤ Z.of_nat n.
Proof.
  induction s as [| c r IH]; intros n; cbn [PyStr.take_chars len]; [lia |].
  destruct (_ && _) eqn:Hc.
  - cbn [len]. rewrite Hc. specialize (IH n). lia.
  - destruct n as [| k]; cbn [len]; [lia |]. rewrite Hc. specialize (IH k). lia.
Qed.

Lemma take_chars_all s : ∀ n, len s ≤ Z.of_nat n → PyStr.take_chars n s = s.
Proof.
  induction s as [| c r IH]; intros n; cbn [PyStr.take_chars len]; [reflexivity |].
  pose proof (len_nonneg r).
  destruct (_ && _) eqn:Hc; intros Hn.
  - rewrite IH by lia. reflexivity.
  - destruct n as [| k]; [lia |]. rewrite IH by lia. reflexivity.
Qed.

Lemma take_chars_prefix s : ∀ n, String.prefix (PyStr.take_chars n s) s = true.
Proof.
  induction s as [| c r IH]; intros n; cbn [PyStr.take_chars]; [reflexivity |].
  destruct (_ && _).
  - cbn [String.prefix]. destruct (ascii_dec c c); [apply IH | congruence].
  - destruct n as [| k]; [reflexivity |].
    cbn [String.prefix]. destruct (ascii_dec c c); [apply IH | congruence].
Qed.

(** The README that ingestion hands on is the start of the text the host
    sent, at most 5000 characters of it, and all of it when it has no
    more. *)
Theorem ingested_readme_is_cut (w : World) (repo_url : Url) (repo_data : RepoData)
    (readme : string) :
  ingest_repository w repo_url = inr repo_data →
  readme_content repo_data = Some readme →
  ∃ sent, readme_reply w = inr sent ∧
          String.prefix readme sent = true ∧
          len readme ≤ 5000 ∧
          (len sent ≤ 5000 → readme = sent).
Proof.
  unfold ingest_repository.
  destruct (_parse_github_url repo_url) as [e | [owner repo]]; [discriminate |].
  intros [= <-]. cbn [readme_content]. unfold _fetch_readme.
  destruct (readme_reply w) as [[] | sent]; cbn [or_default]; try discriminate.
  intros [= <-]. exists sent. split; [reflexivity |].
  split; [apply take_chars_prefix |].
  split; [apply (len_take_chars sent 5000) |].
  intros Hlen. apply take_chars_all. exact Hlen.
Qed.

Lemma ingested_readme_is_cut_witness :
  ∃ sent, readme_reply docker_world = inr sent ∧
          String.prefix "A small service." sent = true ∧
          len "A small service." ≤ 5000 ∧
          (len sent ≤ 5000 → "A small service." = sent).
Proof.
  refine (ingested_readme_is_cut docker_world (repo_url hello_world_request) _
            "A small service." eq_refl _).
  reflexivity.
Defined.

(** ** Ingestion without the host *)

(** Only the URL decides whether ingestion returns: for a URL whose path has
    two segments it returns whatever the five fetches do, and when all five
    raise it returns the repository named after the URL with nothing else
    known about it. *)
Theorem ingest_repository_survives_fetch_errors (w : World) (repo_url : Url)
    (owner repo : string) :
  _parse_github_url repo_url = inr (owner, repo) →
  (∃ repo_data, ingest_repository w repo_url = inr repo_data) ∧
  (all_fetches_fail w →
   ingest_repository w repo_url
   = inr {| name := repo; description := None; language := None; languages := [];
            topics := []; stars := 0; forks := 0; file_tree := ""; key_files := [];
            readme_content := None; image_urls := [] |}).
Proof.
  intros Hparse. unfold ingest_repository. rewrite Hparse. split; [eauto |].
  intros ([e1 H1] & [e2 H2] & [e3 H3] & [e4 H4] & [e5 H5]).
  unfold _fetch_readme, _fetch_file_tree, _fetch_topics.
  rewrite H1, H2, H3, H4, H5.
  destruct e3, e4, e5; reflexivity.
Qed.

Lemma ingest_repository_survives_fetch_errors_witness :
  ingest_repository unreachable_world (repo_url hello_world_request)
  = inr {| name := "Hello-World"; description := None; language := None;
           languages := []; topics := []; stars := 0; forks := 0; file_tree := "";
           key_files := []; readme_content := None; image_urls := [] |}.
Proof.
  apply (ingest_repository_survives_fetch_errors unreachable_world
           (repo_url hello_world_request) "octocat" "Hello-World").
  - reflexivity.
  - unfold all_fetches_fail. cbn. eauto 10.
Defined.

(** ** The key files of a fetched tree *)

Lemma contains_cons sub c r :
  PyStr.contains sub (String c r) = String.prefix sub (String c r) || PyStr.contains sub r.
Proof. reflexivity. Qed.

(** A byte that starts neither of the two special characters is lowered on
    its own. *)
Lemma lower_plain c r :
  (nat_of_ascii c =? 196)%nat = false → (nat_of_ascii c =? 226)%nat = false →
  PyStr.lower (String c r) = String (PyStr.lower_char c) (PyStr.lower r).
Proof.
  intros H1 H2. destruct r as [| c2 [| c3 r3]]; [reflexivity | |].
  - change (PyStr.lower (String c (String c2 "")))
      with (if ((nat_of_ascii c =? 196) && (nat_of_ascii c2 =? 176))%nat
            then String "i" (String (ascii_of_nat 204)
                               (String (ascii_of_nat 135) (PyStr.lower "")))
            else String (PyStr.lower_char c) (PyStr.lower (String c2 ""))).
    rewrite H1. reflexivity.
  - change (PyStr.lower (String c (String c2 (String c3 r3))))
      with (if ((nat_of_ascii c =? 196) && (nat_of_ascii c2 =? 176))%nat
            then String "i" (String (ascii_of_nat 204)
                               (String (ascii_of_nat 135) (PyStr.lower (String c3 r3))))
            else if ((nat_of_ascii c =? 226) && (nat_of_ascii c2 =? 132)
                     && (nat_of_ascii c3 =? 170))%nat
                 then String "k" (PyStr.lower r3)
                 else String (PyStr.lower_char c)
                        (PyStr.lower (String c2 (String c3 r3)))).
    rewrite H1, H2. reflexivity.
Qed.

(** A text that starts with a byte outside ASCII does not occur in ASCII
    text. *)
Lemma contains_absent_high (a : ascii) (old s : string) :
  (128 <=? nat_of_ascii a)%nat = true → ascii_only s = true →
  PyStr.contains (String a old) s = false.
Proof.
  intros Ha. induction s as [| c r IH]; [reflexivity |].
  unfold ascii_only. cbn [list_ascii_of_string forallb].
  intros [Hc Hr]%andb_true_iff. rewrite contains_cons, (IH Hr), orb_false_r.
  cbn [String.prefix]. destruct (ascii_dec a c) as [<- |]; [| reflexivity].
  apply Nat.ltb_lt in Hc. apply Nat.leb_le in Ha. lia.
Qed.

Lemma replace_absent old new s :
  PyStr.contains old s = false → PyStr.replace_from 0 old new s = s.
Proof.
  induction s as [| c r IH]; [reflexivity |].
  rewrite contains_cons. intros [Hp Hr]%orb_false_iff.
  cbn [PyStr.replace_from]. rewrite Hp, (IH Hr). reflexivity.
Qed.

Lemma split_join (lines : list string) :
  lines ≠ [] → Forall (λ line, has_char PyStr.LF line = false) lines →
  PyStr.split PyStr.LF (PyStr.join (String PyStr.LF "") lines) = lines.
Proof.
  induction lines as [| x [| y rest] IH]; intros Hne Hall; [congruence | |].
  - apply Forall_cons in Hall. cbn [PyStr.join String.concat].
    apply split_no_sep, Hall.
  - apply Forall_cons in Hall. destruct Hall as [Hx Hall].
    unfold PyStr.join. cbn [String.concat]. rewrite append_cons, append_nil.
    rewrite split_app by exact Hx. f_equal. apply IH; [discriminate | exact Hall].
Qed.

Lemma replace_folder_line p :
  PyStr.contains (FOLDER +:+ " ") p = false →
  PyStr.replace (FOLDER +:+ " " +:+ p) (FOLDER +:+ " ") "" = p.
Proof.
  intros Hp. unfold PyStr.replace, FOLDER in *. rewrite !append_cons, !append_nil in *.
  cbn. rewrite prefix_empty, append_nil. apply replace_absent, Hp.
Qed.

Lemma replace_page_line p :
  PyStr.contains (PAGE +:+ " ") p = false →
  PyStr.replace (PAGE +:+ " " +:+ p) (PAGE +:+ " ") "" = p.
Proof.
  intros Hp. unfold PyStr.replace, PAGE in *. rewrite !append_cons, !append_nil in *.
  cbn. rewrite prefix_empty, append_nil. apply replace_absent, Hp.
Qed.

Lemma replace_folder_in_page_line p :
  PyStr.contains (FOLDER +:+ " ") p = false →
  PyStr.replace (PAGE +:+ " " +:+ p) (FOLDER +:+ " ") "" = PAGE +:+ " " +:+ p.
Proof.
  intros Hp. unfold PyStr.replace, PAGE, FOLDER in *.
  rewrite !append_cons, !append_nil in *.
  cbn. rewrite replace_absent by exact Hp. reflexivity.
Qed.

(** What the two scans of [_identify_key_files] see in a rendered line. *)
Lemma rendered_line (item : TreeItem) :
  ascii_only (ti_path item) = true →
  is_key_line (tree_line item) = is_key_path (ti_path item) ∧
  line_filename (tree_line item) = ti_path item.
Proof.
  intros Hascii.
  assert (Hfolder : PyStr.contains (FOLDER +:+ " ") (ti_path item) = false)
    by (apply contains_absent_high; [reflexivity | exact Hascii]).
  assert (Hpage : PyStr.contains (PAGE +:+ " ") (ti_path item) = false)
    by (apply contains_absent_high; [reflexivity | exact Hascii]).
  unfold tree_line. split.
  - unfold is_key_line, is_key_path, key_patterns. cbn [existsb].
    destruct (String.eqb (ti_type item) "tree");
      unfold FOLDER, PAGE; rewrite !append_cons, !append_nil, !lower_plain by reflexivity;
      repeat (rewrite contains_cons;
              match goal with
              | |- context [String.prefix ?p (String ?c ?r)] =>
                  change (String.prefix p (String c r)) with false
              end;
              cbn [orb]);
      reflexivity.
  - unfold line_filename.
    destruct (String.eqb (ti_type item) "tree").
    + rewrite replace_folder_line by exact Hfolder.
      apply replace_absent, Hpage.
    + rewrite replace_folder_in_page_line by exact Hfolder.
      apply replace_page_line, Hpage.
Qed.

Lemma rendered_line_one_line (item : TreeItem) :
  has_char PyStr.LF (ti_path item) = false → has_char PyStr.LF (tree_line item) = false.
Proof.
  intros Hpath. unfold tree_line.
  destruct (String.eqb (ti_type item) "tree"); unfold FOLDER, PAGE;
    rewrite !append_cons, !append_nil; repeat (apply has_char_cons; split; [discriminate |]);
    exact Hpath.
Qed.

Lemma rendered_lines (tree : list TreeItem) :
  Forall (λ item, ascii_only (ti_path item) = true) tree →
  List.map line_filename (List.filter is_key_line (List.map tree_line tree))
  = List.filter is_key_path (List.map ti_path tree).
Proof.
  induction tree as [| item tree IH]; intros Hall; [reflexivity |].
  apply Forall_cons in Hall. destruct Hall as [Hitem Hall].
  destruct (rendered_line item Hitem) as [Hkey Hname].
  cbn [List.map List.filter]. rewrite Hkey.
  destruct (is_key_path (ti_path item)); cbn [List.map]; rewrite (IH Hall); congruence.
Qed.

(** For a tree whose paths are ASCII text without line feeds, the key files
    ingestion reports are the first ten paths, among the first hundred
    entries of the tree the host sent, that contain one of the twelve
    patterns case-insensitively. *)
Theorem ingested_key_files (w : World) (repo_url : Url) (repo_data : RepoData)
    (tree : list TreeItem) :
  ingest_repository w repo_url = inr repo_data →
  tree_reply w = inr tree →
  Forall (λ item, ascii_only (ti_path item) = true ∧
                  has_char PyStr.LF (ti_path item) = false) (take 100 tree) →
  file_tree repo_data = tree_text (List.map tree_line (take 100 tree)) ∧
  key_files repo_data
  = take 10 (List.filter is_key_path (List.map ti_path (take 100 tree))).
Proof.
  unfold ingest_repository.
  destruct (_parse_github_url repo_url) as [e | [owner repo]]; [discriminate |].
  intros [= <-] Htree Hall. cbn [file_tree key_files].
  unfold _fetch_file_tree. rewrite Htree. cbn [or_default].
  fold tree_line. fold (tree_text (List.map tree_line (take 100 tree))).
  split; [reflexivity |].
  unfold _identify_key_files. rewrite scan_lines_spec. cbn [app]. f_equal.
  destruct (take 100 tree) as [| item items] eqn:Hitems; [reflexivity |].
  unfold tree_text. rewrite split_join.
  - apply rendered_lines. eapply Forall_impl; [exact Hall |]. intros i [H _]. exact H.
  - discriminate.
  - apply Forall_fmap. eapply Forall_impl; [exact Hall |].
    intros i [_ H]. apply rendered_line_one_line, H.
Qed.

Lemma ingested_key_files_witness :
  ∃ repo_data,
    ingest_repository docker_world (repo_url hello_world_request) = inr repo_data ∧
    key_files repo_data = ["deploy/Dockerfile.dev"; "go.mod"].
Proof.
  eexists. split; [reflexivity |].
  refine (proj2 (ingested_key_files docker_world (repo_url hello_world_request) _
                   [{| ti_path := "cmd"; ti_type := "tree" |};
                    {| ti_path := "cmd/main.go"; ti_type := "blob" |};
                    {| ti_path := "deploy/Dockerfile.dev"; ti_type := "blob" |};
                    {| ti_path := "go.mod"; ti_type := "blob" |}]
                   eq_refl eq_refl _)).
  repeat (apply List.Forall_cons; [split; reflexivity |]). apply List.Forall_nil.
Defined.

(** ** From the submission to the end of its task *)

(** The task an accepted submission schedules never raises, and the status
    endpoint, asked with the identifier the submission answered, never shows
    the job Pending once the task has run: Completed or Failed when the task
    returned, Processing while it waits for the provider. *)
Theorem submitted_task_ends_in_a_known_state (w : World) (uuid4 : string)
    (body : VideoGenerationRequest) (video_jobs video_jobs' : Jobs) (task : Task)
    (response : VideoGenerationResponse) :
  post_generate uuid4 body video_jobs = inr (video_jobs', [task], response) →
  ∃ job,
    get_video_status (vgr_job_id response) (table (run_task w task video_jobs'))
    = inr job ∧
    match outcome (run_task w task video_jobs') with
    | Returned _ => status job = COMPLETED ∨ status job = FAILED
    | Suspended => status job = PROCESSING
    | Raised _ => False
    end.
Proof.
  unfold post_generate. destruct (valid_request body); [| discriminate].
  unfold generate_video. intros [= <- <- <-].
  unfold run_task. cbn [task_job_id task_repo_url task_api_key task_video_style
                        task_duration vgr_job_id].
  match goal with |- context [process_video_generation w uuid4 ?u ?k ?st ?d ?t] =>
    destruct (run_ends w uuid4 u k st d t) as (job & Htable & Hend);
      [rewrite lookup_insert_eq; eauto |]
  end.
  exists job. unfold get_video_status. rewrite Htable. split; [reflexivity |].
  match goal with |- match ?o with _ => _ end => destruct o as [[] | e |] end.
  - destruct Hend as [Hdone | Hfailed]; [left; apply Hdone | right; apply Hfailed].
  - exact Hend.
  - exact Hend.
Qed.

Lemma submitted_task_ends_in_a_known_state_witness :
  ∃ video_jobs' task response job,
    post_generate "job-1" hello_world_request ∅ = inr (video_jobs', [task], response) ∧
    get_video_status (vgr_job_id response) (table (run_task usual_world task video_jobs'))
    = inr job ∧
    status job = COMPLETED.
Proof.
  destruct (submitted_task_ends_in_a_known_state usual_world "job-1" hello_world_request
              ∅ _ _ _ eq_refl) as (job & Hstatus & Hend).
  do 3 eexists. exists job. split; [reflexivity |]. split; [exact Hstatus |].
  revert Hstatus. vm_compute. intros [= <-]. reflexivity.
Defined.

(** ** The duration asked of the provider *)

(** For a request that passes validation the form posted to the provider
    asks for the requested duration rounded up to the next of 4, 8 and 12
    seconds: never less than requested, less than four seconds more. *)
Theorem requested_duration_is_rounded_up (request : VideoGenerationRequest)
    (script : string) :
  valid_request request = true →
  ∃ seconds,
    fd_seconds (sora_form script (video_style request) (duration request))
    = PyStr.of_int seconds ∧
    (seconds = 4 ∨ seconds = 8 ∨ seconds = 12) ∧
    duration request ≤ seconds < duration request + 4.
Proof.
  unfold valid_request. intros Hvalid.
  apply andb_true_iff in Hvalid. destruct Hvalid as [Hvalid Hmax].
  apply andb_true_iff in Hvalid. destruct Hvalid as [_ Hmin].
  apply Z.leb_le in Hmin, Hmax.
  cbn [sora_form fd_seconds]. unfold get_sora_duration.
  destruct (Z.leb_spec (duration request) 4);
    [exists 4; split; [reflexivity | lia] |].
  destruct (Z.leb_spec (duration request) 8);
    [exists 8; split; [reflexivity | lia] |].
  exists 12. split; [reflexivity | lia].
Qed.

Lemma requested_duration_is_rounded_up_witness :
  ∃ seconds,
    fd_seconds (sora_form "A script" TECH 8) = PyStr.of_int seconds ∧
    (seconds = 4 ∨ seconds = 8 ∨ seconds = 12) ∧ 8 ≤ seconds < 8 + 4.
Proof.
  apply (requested_duration_is_rounded_up hello_world_request "A script").
  reflexivity.
Defined.
